(** * Yahtzee scoring rules (src/src/Rules.js)

    A shallow embedding of the rule classes of [Rules.js] and of the thirteen
    rule instances the module exports, followed by the properties of their
    [evalRoll] functions.

    Dice values are JavaScript numbers that hold small integers; they are
    modelled as [Z].  An array is a [list Z].  A [Map] and a [Set] iterate in
    insertion order, so both are modelled as lists in insertion order.  The
    one exception the code can raise ([reduce] of an empty array without an
    initial value) is modelled by the [result] type.

    The [render] methods of the score-sheet row ([RuleRow.js]) and of the die
    are embedded as functions from props to the element they return. *)

From Stdlib Require Import Ascii String ZArith List Bool Lia Permutation.
Import ListNotations.
Local Open Scope string_scope.
Local Open Scope list_scope.
Local Open Scope Z_scope.

(** ** JavaScript values the rules use *)

(** The outcome of a call: a value, or the [TypeError] that
    [Array.prototype.reduce] throws on an empty array with no initial value. *)
Inductive result (A : Type) : Type :=
| Ok (a : A)
| TypeError.
Arguments Ok {A} a.
Arguments TypeError {A}.

Module JsMap.
(** [new Map()]: entries in insertion order, keys pairwise distinct. *)
Definition t : Type := list (Z * Z).

Definition empty : t := [].

(** [m.get(k)]; [None] is [undefined]. *)
Fixpoint get (m : t) (k : Z) : option Z :=
  match m with
  | [] => None
  | (k', v) :: m' => if k' =? k then Some v else get m' k
  end.

(** [m.set(k, v)]: an existing key keeps its position, a new key goes last. *)
Fixpoint set (m : t) (k v : Z) : t :=
  match m with
  | [] => [(k, v)]
  | (k', v') :: m' => if k' =? k then (k', v) :: m' else (k', v') :: set m' k v
  end.

(** [Array.from(m.values())] *)
Definition values (m : t) : list Z := map snd m.
End JsMap.

Module JsSet.
(** [new Set(...)]: elements in insertion order, pairwise distinct. *)
Definition t : Type := list Z.

Definition has (s : t) (v : Z) : bool := existsb (fun x => x =? v) s.

Definition add (s : t) (v : Z) : t := if has s v then s else s ++ [v].

(** [new Set(arr)] adds the elements of [arr] from left to right. *)
Definition of_array (arr : list Z) : t := fold_left add arr [].

Definition size (s : t) : Z := Z.of_nat (length s).
End JsSet.

(** [x || 0] where [x] is a number or [undefined]. *)
Definition or_zero (x : option Z) : Z :=
  match x with
  | Some n => if n =? 0 then 0 else n
  | None => 0
  end.

(** [arr.includes(v)] *)
Definition includes (arr : list Z) (v : Z) : bool := existsb (fun x => x =? v) arr.

(** [arr.some(p)] *)
Definition some (p : Z -> bool) (arr : list Z) : bool := existsb p arr.

(** [arr[0] === v]; an empty array gives [undefined], which is not [v]. *)
Definition first_is (arr : list Z) (v : Z) : bool :=
  match nth_error arr 0 with
  | Some x => x =? v
  | None => false
  end.

(** ** class Rule: the helpers shared by every rule *)

(** [sum(dice)]: [dice.reduce((prev, curr) => prev + curr)]. *)
Definition sum (dice : list Z) : result Z :=
  match dice with
  | [] => TypeError
  | d :: ds => Ok (fold_left (fun prev curr => prev + curr) ds d)
  end.

(** One iteration of the loop of [freq]:
    [freqs.set(d, (freqs.get(d) || 0) + 1)]. *)
Definition freq_step (freqs : JsMap.t) (d : Z) : JsMap.t :=
  JsMap.set freqs d (or_zero (JsMap.get freqs d) + 1).

(** [freq(dice)]: a fresh map, one [freq_step] per die, then its values. *)
Definition freq (dice : list Z) : list Z :=
  JsMap.values (fold_left freq_step dice JsMap.empty).

(** [count(dice, val)]: [dice.filter((d) => d === val).length]. *)
Definition count (dice : list Z) (val : Z) : Z :=
  Z.of_nat (length (filter (fun d => d =? val) dice)).

(** ** The rule classes

    [Object.assign(this, params)] copies the constructor's parameters onto
    the instance.  Each class reads one numeric parameter ([val], [count] or
    [score]); every instance carries a [description] that no [evalRoll]
    reads.  An instance is a constructor of [Rule] with those parameters. *)
Inductive Rule : Type :=
| TotalOneNumber (val : Z) (description : string)
| SumDistro (count : Z) (description : string)
| FullHouse (score : Z) (description : string)
| SmallStraight (score : Z) (description : string)
| LargeStraight (score : Z) (description : string)
| Yahtzee (score : Z) (description : string).

(** [evalRoll], class by class.  On a [SumDistro] instance [this.count] is
    the numeric parameter (the own property shadows the method of [Rule]). *)
Definition evalRoll (this : Rule) (dice : list Z) : result Z :=
  match this with
  | TotalOneNumber val _ =>
      Ok (val * count dice val)
  | SumDistro this_count _ =>
      if some (fun c => c >=? this_count) (freq dice) then sum dice else Ok 0
  | FullHouse score _ =>
      let freqs := freq dice in
      Ok (if includes freqs 2 && includes freqs 3 then score else 0)
  | SmallStraight score _ =>
      let d := JsSet.of_array dice in
      if JsSet.has d 2 && JsSet.has d 4 && JsSet.has d 3
         && (JsSet.has d 5 || JsSet.has d 1)
      then Ok score
      else if JsSet.has d 3 && JsSet.has d 4 && JsSet.has d 5
              && (JsSet.has d 6 || JsSet.has d 2)
      then Ok score
      else Ok 0
  | LargeStraight score _ =>
      let d := JsSet.of_array dice in
      Ok (if (JsSet.size d =? 5) && (negb (JsSet.has d 1) || negb (JsSet.has d 6))
          then score else 0)
  | Yahtzee score _ =>
      Ok (if first_is (freq dice) 5 then score else 0)
  end.

(** ** The exported rule instances *)

Definition ones := TotalOneNumber 1 "Sum of 1's".
Definition twos := TotalOneNumber 2 "Sum of 2's".
Definition threes := TotalOneNumber 3 "Sum of 3's".
Definition fours := TotalOneNumber 4 "Sum of 4's".
Definition fives := TotalOneNumber 5 "Sum of 5's".
Definition sixes := TotalOneNumber 6 "Sum of 6's".

Definition threeOfKind := SumDistro 3 "Sum of three of a kind".
Definition fourOfKind := SumDistro 4 "Sum of four of a kind".

Definition fullHouse := FullHouse 25 "Full House (25 points)".

Definition smallStraight := SmallStraight 30 "Small Straight (30 points)".
Definition largeStraight := LargeStraight 40 "Large Straight (40 points)".

Definition yahtzee := Yahtzee 50 "Yahtzee (50 points)".

Definition chance := SumDistro 0 "Sum of all dice".

(** The export list, in its order. *)
Definition catalog : list Rule :=
  [ones; twos; threes; fours; fives; sixes; threeOfKind; fourOfKind;
   fullHouse; smallStraight; largeStraight; yahtzee; chance].

(** ** Hands *)

Definition is_face (d : Z) : bool := (1 <=? d) && (d <=? 6).

(** A well-formed hand: exactly five dice, each showing 1 to 6. *)
Definition well_formed (hand : list Z) : Prop :=
  length hand = 5%nat /\ forallb is_face hand = true.

(** The faces of a die. *)
Definition faces : list Z := [1; 2; 3; 4; 5; 6].

(** The distinct values of a hand. *)
Definition distinct_values (hand : list Z) : list Z := nodup Z.eq_dec hand.

(** The total of a hand, by plain summation. *)
Definition total (hand : list Z) : Z := fold_right Z.add 0 hand.

(** The number of dice of a hand that show [v]. *)
Definition occurrences (hand : list Z) (v : Z) : Z :=
  Z.of_nat (count_occ Z.eq_dec hand v).

(** The entries the map of [freq] holds once the dice [seen] are processed:
    one entry per distinct value, in order of first appearance, with the
    number of dice seen that show it. *)
Definition entries (seen : list Z) : JsMap.t :=
  map (fun v => (v, count seen v)) (JsSet.of_array seen).

(** The largest score each class can award on five dice showing at most 6:
    30 for the rules that add dice up, the fixed award for the others. *)
Definition max_award (r : Rule) : Z :=
  match r with
  | TotalOneNumber _ _ => 30
  | SumDistro _ _ => 30
  | FullHouse _ _ => 25
  | SmallStraight _ _ => 30
  | LargeStraight _ _ => 40
  | Yahtzee _ _ => 50
  end.

(** What an [evalRoll] reads of its instance: the class and the numeric
    parameter, not the description. *)
Inductive RuleClass : Type :=
| CTotalOneNumber | CSumDistro | CFullHouse
| CSmallStraight | CLargeStraight | CYahtzee.

Definition configuration (r : Rule) : RuleClass * Z :=
  match r with
  | TotalOneNumber val _ => (CTotalOneNumber, val)
  | SumDistro count _ => (CSumDistro, count)
  | FullHouse score _ => (CFullHouse, score)
  | SmallStraight score _ => (CSmallStraight, score)
  | LargeStraight score _ => (CLargeStraight, score)
  | Yahtzee score _ => (CYahtzee, score)
  end.

(** The awards a rule of each class needs to stay within [max_award]: a face
    for [val], and a fixed award between 0 and the listed maximum. *)
Definition within_award (r : Rule) : Prop :=
  match r with
  | TotalOneNumber val _ => 0 <= val <= 6
  | SumDistro _ _ => True
  | FullHouse score _ | SmallStraight score _
  | LargeStraight score _ | Yahtzee score _ => 0 <= score <= max_award r
  end.

(** ** Evaluation on the heap

    The same methods once more, with the JavaScript heap made explicit: the
    array of dice is an object the caller owns and passes by reference, and
    [new Map()] and [new Set(dice)] allocate objects that [set] updates in
    place.  Arrays that a call creates and consumes at once (the results of
    [filter] and [Array.from]) stay values. *)

Module Heap.
Inductive object : Type :=
| ArrayObj (elements : list Z)
| MapObj (entries : JsMap.t)
| SetObj (elements : JsSet.t).

(** The heap is the list of the objects allocated so far; a reference is a
    position in it. *)
Definition t : Type := list object.
Definition ref : Type := nat.

Fixpoint replace (l : ref) (o : object) (heap : t) : t :=
  match heap, l with
  | [], _ => []
  | _ :: rest, O => o :: rest
  | x :: rest, S l' => x :: replace l' o rest
  end.
End Heap.

(** A computation reads and writes the heap and returns or throws. *)
Definition JS (A : Type) : Type := Heap.t -> result A * Heap.t.

Definition ret {A : Type} (a : A) : JS A := fun heap => (Ok a, heap).

Definition throw {A : Type} : JS A := fun heap => (TypeError, heap).

Definition bind {A B : Type} (m : JS A) (k : A -> JS B) : JS B :=
  fun heap =>
    match m heap with
    | (Ok a, heap') => k a heap'
    | (TypeError, heap') => (TypeError, heap')
    end.

Declare Scope js_scope.
Delimit Scope js_scope with js.
Notation "x <- m ;; k" := (bind m (fun x => k))
  (at level 61, m at next level, right associativity) : js_scope.
Notation "m ;; k" := (bind m (fun _ => k))
  (at level 61, right associativity) : js_scope.

(** A call of a method of [Rule] that touches no object. *)
Definition lift {A : Type} (r : result A) : JS A := fun heap => (r, heap).

Definition new_object (o : Heap.object) : JS Heap.ref :=
  fun heap => (Ok (length heap), heap ++ [o]).

Definition load (l : Heap.ref) : JS Heap.object :=
  fun heap =>
    match nth_error heap l with
    | Some o => (Ok o, heap)
    | None => (TypeError, heap)
    end.

Definition store (l : Heap.ref) (o : Heap.object) : JS unit :=
  fun heap => (Ok tt, Heap.replace l o heap).

(** [for (let d of arr) body] *)
Fixpoint for_of (arr : list Z) (body : Z -> JS unit) : JS unit :=
  match arr with
  | [] => ret tt
  | d :: rest => (body d ;; for_of rest body)%js
  end.

Module OnHeap.
Local Open Scope js_scope.

(** The elements of the array at [l]. *)
Definition elements (l : Heap.ref) : JS (list Z) :=
  o <- load l ;;
  match o with
  | Heap.ArrayObj a => ret a
  | _ => throw
  end.

(** [new Map()] *)
Definition new_Map : JS Heap.ref := new_object (Heap.MapObj JsMap.empty).

(** [m.get(k)] *)
Definition map_get (m : Heap.ref) (k : Z) : JS (option Z) :=
  o <- load m ;;
  match o with
  | Heap.MapObj entries => ret (JsMap.get entries k)
  | _ => throw
  end.

(** [m.set(k, v)] *)
Definition map_set (m : Heap.ref) (k v : Z) : JS unit :=
  o <- load m ;;
  match o with
  | Heap.MapObj entries => store m (Heap.MapObj (JsMap.set entries k v))
  | _ => throw
  end.

(** [Array.from(m.values())] *)
Definition map_values (m : Heap.ref) : JS (list Z) :=
  o <- load m ;;
  match o with
  | Heap.MapObj entries => ret (JsMap.values entries)
  | _ => throw
  end.

(** [new Set(dice)] *)
Definition new_Set (dice : Heap.ref) : JS Heap.ref :=
  a <- elements dice ;;
  new_object (Heap.SetObj (JsSet.of_array a)).

(** The set at [d], for its [has] and [size]. *)
Definition set_elements (d : Heap.ref) : JS JsSet.t :=
  o <- load d ;;
  match o with
  | Heap.SetObj s => ret s
  | _ => throw
  end.

Definition sum (dice : Heap.ref) : JS Z :=
  a <- elements dice ;;
  lift (sum a).

Definition freq (dice : Heap.ref) : JS (list Z) :=
  freqs <- new_Map ;;
  a <- elements dice ;;
  for_of a (fun d =>
    c <- map_get freqs d ;;
    map_set freqs d (or_zero c + 1)) ;;
  map_values freqs.

Definition count (dice : Heap.ref) (val : Z) : JS Z :=
  a <- elements dice ;;
  ret (count a val).

Definition evalRoll (this : Rule) (dice : Heap.ref) : JS Z :=
  match this with
  | TotalOneNumber val _ =>
      c <- count dice val ;;
      ret (val * c)
  | SumDistro this_count _ =>
      freqs <- freq dice ;;
      if some (fun c => c >=? this_count) freqs then sum dice else ret 0
  | FullHouse score _ =>
      freqs <- freq dice ;;
      ret (if includes freqs 2 && includes freqs 3 then score else 0)
  | SmallStraight score _ =>
      r <- new_Set dice ;;
      d <- set_elements r ;;
      if JsSet.has d 2 && JsSet.has d 4 && JsSet.has d 3
         && (JsSet.has d 5 || JsSet.has d 1)
      then ret score
      else if JsSet.has d 3 && JsSet.has d 4 && JsSet.has d 5
              && (JsSet.has d 6 || JsSet.has d 2)
      then ret score
      else ret 0
  | LargeStraight score _ =>
      r <- new_Set dice ;;
      d <- set_elements r ;;
      ret (if (JsSet.size d =? 5) && (negb (JsSet.has d 1) || negb (JsSet.has d 6))
           then score else 0)
  | Yahtzee score _ =>
      freqs <- freq dice ;;
      ret (if first_is freqs 5 then score else 0)
  end.
End OnHeap.

(** *** The scoring conditions, worded over the dice *)

(** Five distinct values, and not both a 1 and a 6. *)
Definition five_distinct_not_1_and_6 (hand : list Z) : Prop :=
  length (distinct_values hand) = 5%nat /\ ~ (In 1 hand /\ In 6 hand).

(** The distinct values hold 2, 3, 4 and one of 1 and 5, or they hold
    3, 4, 5 and one of 2 and 6. *)
Definition three_and_a_neighbour (hand : list Z) : Prop :=
  let present v := In v (distinct_values hand) in
  (present 2 /\ present 3 /\ present 4 /\ (present 1 \/ present 5))
  \/ (present 3 /\ present 4 /\ present 5 /\ (present 2 \/ present 6)).

(** Every value of [run] is among the distinct values. *)
Definition run_present (run hand : list Z) : Prop :=
  incl run (distinct_values hand).

(** Some face shows exactly twice and some face shows exactly three times. *)
Definition pair_and_triple (hand : list Z) : Prop :=
  (exists a, occurrences hand a = 2) /\ (exists b, occurrences hand b = 3).

(** Some face shows at least [k] times. *)
Definition of_a_kind (k : Z) (hand : list Z) : Prop :=
  exists v, In v faces /\ k <= occurrences hand v.


(** ** Enumerating hands *)

(** Every hand of [n] dice that show faces. *)
Fixpoint hands (n : nat) : list (list Z) :=
  match n with
  | O => [[]]
  | S n' => flat_map (fun d => map (cons d) (hands n')) faces
  end.

(** [evalRoll r hand] returned the score [n]. *)
Definition scores (r : Rule) (hand : list Z) (n : Z) : bool :=
  match evalRoll r hand with
  | Ok m => m =? n
  | TypeError => false
  end.

(** ** The score-sheet row (src/src/RuleRow.js) *)

Module RuleRow.
(** The props [render] reads; a [score] of [None] is [undefined].  [Handler]
    is the type of the click handler the row is given. *)
Record props (Handler : Type) : Type := {
  score : option Z;
  name : string;
  doScore : Handler;
  description : string
}.
Arguments score {Handler} _.
Arguments name {Handler} _.
Arguments doScore {Handler} _.
Arguments description {Handler} _.

(** What a table cell holds: a string, a number, or nothing for
    [undefined]. *)
Inductive child : Type :=
| Text (s : string)
| Num (n : Z)
| Nothing.

Definition child_of_score (score : option Z) : child :=
  match score with
  | Some n => Num n
  | None => Nothing
  end.

Record td : Type := {
  td_className : string;
  td_child : child
}.

(** The [tr] element; an [onClick] of [None] is [null]. *)
Record tr (Handler : Type) : Type := {
  className : string;
  onClick : option Handler;
  cells : list td
}.
Arguments className {Handler} _.
Arguments onClick {Handler} _.
Arguments cells {Handler} _.

Definition render {Handler : Type} (p : props Handler) : tr Handler :=
  let isActive := match score p with None => true | Some _ => false end in
  let disabled := negb isActive in
  {| className := "RuleRow RuleRow-" ++ (if isActive then "active" else "disabled");
     onClick := if disabled then None else Some (doScore p);
     cells :=
       [ {| td_className := "RuleRow-name"; td_child := Text (name p) |};
         {| td_className := "RuleRow-score";
            td_child := if disabled then child_of_score (score p)
                        else Text (description p) |} ] |}.
End RuleRow.

(** ** The die (src/unnamed/part_000) *)

Module Die.
(** [defaultProps.numWords] *)
Definition numWords : list string := ["one"; "two"; "three"; "four"; "five"; "six"].

(** [arr[i]] for an integer [i]; [None] is [undefined]. *)
Definition index (arr : list string) (i : Z) : option string :=
  if i <? 0 then None else nth_error arr (Z.to_nat i).

(** A value placed in a template literal. *)
Definition interpolate (x : option string) : string :=
  match x with
  | Some s => s
  | None => "undefined"
  end.

(** The props [render] reads and the [idx] that [handleClick] passes on. *)
Record props : Type := {
  words : list string;
  locked : bool;
  val : Z;
  disabled : bool;
  idx : Z
}.

(** The local [classes] of [render]. *)
Definition classes (p : props) : string :=
  let classes :=
    ("Die fas fa-dice-" ++ interpolate (index (words p) (val p - 1)))%string in
  if locked p then (classes ++ "Die-locked")%string else classes.

(** The [i] element; a click on it calls [props.handleClick] with
    [clicked]. *)
Record element : Type := {
  className : string;
  clicked : Z;
  el_disabled : bool
}.

Definition render (p : props) : element :=
  {| className := classes p; clicked := idx p; el_disabled := disabled p |}.
End Die.

(** The words of a string that spaces separate, as a class attribute is
    read: each word is one class. *)
Fixpoint split_on_space (s : string) : list string :=
  match s with
  | EmptyString => [EmptyString]
  | String c rest =>
      if Ascii.eqb c " "%char
      then EmptyString :: split_on_space rest
      else match split_on_space rest with
           | [] => [String c EmptyString]
           | w :: ws => String c w :: ws
           end
  end.

Definition class_list (s : string) : list string :=
  filter (fun w => negb (String.eqb w "")) (split_on_space s).

Example freq_22255 : freq [2; 2; 2; 5; 5] = [3; 2].
Proof. reflexivity. Qed.

Example freq_52252 : freq [5; 2; 2; 5; 2] = [2; 3].
Proof. reflexivity. Qed.

Example yahtzee_66666 : evalRoll yahtzee [6; 6; 6; 6; 6] = Ok 50.
Proof. reflexivity. Qed.

Example yahtzee_66665 : evalRoll yahtzee [6; 6; 6; 6; 5] = Ok 0.
Proof. reflexivity. Qed.

Example twos_22325 : evalRoll twos [2; 2; 3; 2; 5] = Ok 6.
Proof. reflexivity. Qed.

(** ** Facts about the insertion-ordered set *)

Module JsSetFacts.
Import JsSet.

Lemma has_In (s : t) (v : Z) : has s v = true <-> In v s.
Proof.
  unfold has. rewrite existsb_exists. split.
  - intros [x [Hx Heq]]. apply Z.eqb_eq in Heq. now subst.
  - intros H. exists v. split; [assumption | apply Z.eqb_refl].
Qed.

Lemma has_false (s : t) (v : Z) : has s v = false <-> ~ In v s.
Proof.
  rewrite <- has_In. destruct (has s v); split; congruence.
Qed.

Lemma add_In (s : t) (x v : Z) : In v (add s x) <-> In v s \/ v = x.
Proof.
  unfold add. destruct (has s x) eqn:E.
  - apply has_In in E. split; [tauto | intros [H | ->]; assumption].
  - rewrite in_app_iff. simpl. intuition congruence.
Qed.

Lemma add_NoDup (s : t) (x : Z) : NoDup s -> NoDup (add s x).
Proof.
  intros Hs. unfold add. destruct (has s x) eqn:E; [assumption |].
  apply has_false in E.
  apply NoDup_rev in Hs. rewrite <- (rev_involutive (s ++ [x])).
  apply NoDup_rev. rewrite rev_app_distr. simpl.
  constructor; [now rewrite <- in_rev | assumption].
Qed.

Lemma add_cons (a : Z) (s : t) (x : Z) :
  add (a :: s) x = a :: (if a =? x then s else add s x).
Proof.
  unfold add, has. simpl. destruct (a =? x); simpl; [reflexivity |].
  now destruct (existsb _ s).
Qed.

Lemma fold_add_In (arr : list Z) (s : t) (v : Z) :
  In v (fold_left add arr s) <-> In v s \/ In v arr.
Proof.
  revert s. induction arr as [| x arr IH]; intros s; simpl.
  - tauto.
  - rewrite IH, add_In. intuition congruence.
Qed.

Lemma fold_add_NoDup (arr : list Z) (s : t) :
  NoDup s -> NoDup (fold_left add arr s).
Proof.
  revert s. induction arr as [| x arr IH]; intros s Hs; simpl.
  - assumption.
  - apply IH, add_NoDup, Hs.
Qed.

Lemma of_array_In (arr : list Z) (v : Z) : In v (of_array arr) <-> In v arr.
Proof.
  unfold of_array. rewrite fold_add_In. simpl. tauto.
Qed.

Lemma of_array_NoDup (arr : list Z) : NoDup (of_array arr).
Proof.
  apply fold_add_NoDup. constructor.
Qed.

Lemma of_array_snoc (arr : list Z) (x : Z) :
  of_array (arr ++ [x]) = add (of_array arr) x.
Proof.
  unfold of_array. now rewrite fold_left_app.
Qed.

(** The first die is the first element of the set. *)
Lemma fold_add_head (arr : list Z) (a : Z) (s : t) :
  exists s', fold_left add arr (a :: s) = a :: s'.
Proof.
  revert s. induction arr as [| x arr IH]; intros s; simpl.
  - now exists s.
  - rewrite add_cons. apply IH.
Qed.

Lemma of_array_head (d : Z) (ds : list Z) :
  exists s', of_array (d :: ds) = d :: s'.
Proof.
  unfold of_array. simpl. apply fold_add_head.
Qed.

Lemma has_of_array (arr : list Z) (v : Z) :
  has (of_array arr) v = true <-> In v arr.
Proof.
  now rewrite has_In, of_array_In.
Qed.

(** The set holds the distinct values of the array, in some order. *)
Lemma of_array_distinct (arr : list Z) :
  Permutation (of_array arr) (distinct_values arr).
Proof.
  apply NoDup_Permutation.
  - apply of_array_NoDup.
  - apply NoDup_nodup.
  - intros v. unfold distinct_values. now rewrite of_array_In, nodup_In.
Qed.

Lemma size_distinct (arr : list Z) :
  size (of_array arr) = Z.of_nat (length (distinct_values arr)).
Proof.
  unfold size. f_equal. apply Permutation_length, of_array_distinct.
Qed.
End JsSetFacts.

(** ** Facts about [count] and [sum] *)

Lemma count_cons (d : Z) (ds : list Z) (v : Z) :
  count (d :: ds) v = (if d =? v then 1 else 0) + count ds v.
Proof.
  unfold count. simpl. destruct (d =? v); simpl length; lia.
Qed.

Lemma count_snoc (ds : list Z) (d v : Z) :
  count (ds ++ [d]) v = count ds v + (if d =? v then 1 else 0).
Proof.
  unfold count. rewrite filter_app, length_app. simpl.
  destruct (d =? v); simpl length; lia.
Qed.

Lemma count_occurrences (dice : list Z) (v : Z) : count dice v = occurrences dice v.
Proof.
  unfold occurrences. induction dice as [| d ds IH].
  - reflexivity.
  - rewrite count_cons, IH. simpl.
    destruct (Z.eq_dec d v) as [-> | Hne].
    + rewrite Z.eqb_refl. lia.
    + apply Z.eqb_neq in Hne. rewrite Hne. lia.
Qed.

Lemma count_bounds (dice : list Z) (v : Z) :
  0 <= count dice v <= Z.of_nat (length dice).
Proof.
  unfold count. split; [lia |]. apply inj_le, filter_length_le.
Qed.

Lemma count_pos_In (dice : list Z) (v : Z) : 0 < count dice v <-> In v dice.
Proof.
  rewrite count_occurrences. unfold occurrences.
  rewrite (count_occ_In Z.eq_dec). lia.
Qed.

Lemma count_zero (dice : list Z) (v : Z) : ~ In v dice -> count dice v = 0.
Proof.
  intros H. rewrite <- count_pos_In in H. pose proof (count_bounds dice v). lia.
Qed.

(** A value fills the whole hand exactly when every die shows it. *)
Lemma count_full (dice : list Z) (v : Z) :
  count dice v = Z.of_nat (length dice) <-> (forall d, In d dice -> d = v).
Proof.
  induction dice as [| d ds IH].
  - simpl. split; [intros _ x [] | reflexivity].
  - rewrite count_cons. pose proof (count_bounds ds v) as B. simpl length.
    destruct (d =? v) eqn:E.
    + apply Z.eqb_eq in E. subst d. split.
      * intros H x [<- | Hx]; [reflexivity |]. apply IH; [lia | assumption].
      * intros H. assert (count ds v = Z.of_nat (length ds)) by
          (apply IH; intros x Hx; apply H; now right). lia.
    + apply Z.eqb_neq in E. split; [lia |].
      intros H. exfalso. apply E, H. now left.
Qed.

Lemma count_Permutation (h h' : list Z) (v : Z) :
  Permutation h h' -> count h v = count h' v.
Proof.
  intros P. rewrite !count_occurrences. unfold occurrences.
  f_equal. now apply (Permutation_count_occ Z.eq_dec h h').
Qed.

Lemma fold_left_add_total (ds : list Z) (a : Z) :
  fold_left (fun prev curr => prev + curr) ds a = a + total ds.
Proof.
  revert a. induction ds as [| d ds IH]; intros a; simpl.
  - lia.
  - rewrite IH. unfold total. simpl. lia.
Qed.

(** On a hand that is not empty [sum] is the plain total. *)
Lemma sum_total (dice : list Z) : dice <> [] -> sum dice = Ok (total dice).
Proof.
  destruct dice as [| d ds]; [congruence |]. intros _.
  unfold sum. now rewrite fold_left_add_total.
Qed.

Lemma total_Permutation (h h' : list Z) : Permutation h h' -> total h = total h'.
Proof.
  induction 1; unfold total in *; simpl; lia.
Qed.

Lemma sum_Permutation (h h' : list Z) : Permutation h h' -> sum h = sum h'.
Proof.
  intros P. destruct h as [| d ds].
  - apply Permutation_nil in P. now subst.
  - assert (h' <> []) by
      (intros ->; apply Permutation_sym, Permutation_nil in P; discriminate).
    rewrite !sum_total by (assumption || discriminate).
    f_equal. now apply total_Permutation.
Qed.

(** ** The loop of [freq] *)

Section FreqLoop.
(** The number [c v] recorded for each key [v]. *)
Variable c : Z -> Z.

Lemma get_tabulate (s : JsSet.t) (d : Z) :
  JsMap.get (map (fun v => (v, c v)) s) d
  = if JsSet.has s d then Some (c d) else None.
Proof.
  induction s as [| a s IH]; simpl.
  - reflexivity.
  - destruct (a =? d) eqn:E; simpl.
    + apply Z.eqb_eq in E. now subst.
    + apply IH.
Qed.

(** Setting key [d] to [x] in the map that records [c] for the keys [s]
    gives the map for [s] with [d] added: the entry of [d] is updated where
    it stands, or appended when [d] is new. *)
Lemma set_tabulate (s : JsSet.t) (d x : Z) :
  NoDup s ->
  JsMap.set (map (fun v => (v, c v)) s) d x =
  map (fun v => (v, if v =? d then x else c v)) (JsSet.add s d).
Proof.
  induction s as [| a s IH]; intros ND.
  - simpl. unfold JsSet.add. simpl. now rewrite Z.eqb_refl.
  - rewrite JsSetFacts.add_cons. inversion ND as [| ? ? Ha ND']; subst.
    simpl. destruct (a =? d) eqn:E.
    + apply Z.eqb_eq in E. subst a. f_equal.
      apply map_ext_in. intros v Hv.
      destruct (v =? d) eqn:E'; [| reflexivity].
      apply Z.eqb_eq in E'. now subst.
    + f_equal. now apply IH.
Qed.
End FreqLoop.

(** The loop invariant: after the dice [seen], the map is [entries seen]. *)
Lemma freq_step_entries (seen : list Z) (d : Z) :
  freq_step (entries seen) d = entries (seen ++ [d]).
Proof.
  unfold freq_step, entries.
  rewrite get_tabulate, set_tabulate by apply JsSetFacts.of_array_NoDup.
  rewrite JsSetFacts.of_array_snoc. apply map_ext. intros v.
  rewrite count_snoc, (Z.eqb_sym v d). f_equal.
  destruct (d =? v) eqn:E; [| lia].
  apply Z.eqb_eq in E. subst v.
  destruct (JsSet.has (JsSet.of_array seen) d) eqn:H; simpl.
  - destruct (count seen d =? 0) eqn:Z0; [apply Z.eqb_eq in Z0 |]; lia.
  - apply JsSetFacts.has_false in H. rewrite JsSetFacts.of_array_In in H.
    now rewrite count_zero.
Qed.

Lemma fold_freq_step (dice seen : list Z) :
  fold_left freq_step dice (entries seen) = entries (seen ++ dice).
Proof.
  revert seen. induction dice as [| d ds IH]; intros seen; simpl.
  - now rewrite app_nil_r.
  - rewrite freq_step_entries, IH, <- app_assoc. reflexivity.
Qed.

(** [freq] lists, for each distinct value in order of first appearance, the
    number of dice that show it. *)
Lemma freq_counts (dice : list Z) :
  freq dice = map (count dice) (JsSet.of_array dice).
Proof.
  unfold freq. change JsMap.empty with (entries []).
  rewrite fold_freq_step. simpl. unfold entries, JsMap.values.
  rewrite map_map. reflexivity.
Qed.

Lemma In_freq (dice : list Z) (n : Z) :
  In n (freq dice) <-> exists v, In v dice /\ count dice v = n.
Proof.
  rewrite freq_counts, in_map_iff. split.
  - intros [v [E Hv]]. exists v. now rewrite <- JsSetFacts.of_array_In.
  - intros [v [Hv E]]. exists v. now rewrite JsSetFacts.of_array_In.
Qed.

Lemma freq_Permutation (h h' : list Z) :
  Permutation h h' -> Permutation (freq h) (freq h').
Proof.
  intros P. rewrite !freq_counts.
  rewrite (map_ext (count h) (count h')) by (intros v; now apply count_Permutation).
  apply Permutation_map, NoDup_Permutation; try apply JsSetFacts.of_array_NoDup.
  intros v. rewrite !JsSetFacts.of_array_In.
  split; apply Permutation_in; [assumption | now apply Permutation_sym].
Qed.

(** The first frequency is that of the first die. *)
Lemma freq_head (d : Z) (ds : list Z) :
  nth_error (freq (d :: ds)) 0 = Some (count (d :: ds) d).
Proof.
  rewrite freq_counts.
  destruct (JsSetFacts.of_array_head d ds) as [s' ->]. reflexivity.
Qed.

Lemma freq_length (dice : list Z) :
  length (freq dice) = length (distinct_values dice).
Proof.
  rewrite freq_counts, length_map.
  apply Permutation_length, JsSetFacts.of_array_distinct.
Qed.

Lemma includes_In (arr : list Z) (v : Z) : includes arr v = true <-> In v arr.
Proof.
  apply JsSetFacts.has_In.
Qed.

Lemma some_freq (p : Z -> bool) (dice : list Z) :
  some p (freq dice) = true <-> exists v, In v dice /\ p (count dice v) = true.
Proof.
  unfold some. rewrite existsb_exists. split.
  - intros [n [Hn Hp]]. apply In_freq in Hn. destruct Hn as [v [Hv <-]]. eauto.
  - intros [v [Hv Hp]]. exists (count dice v). split; [| assumption].
    apply In_freq. eauto.
Qed.

(** ** Facts about hands *)

Lemma is_face_iff (d : Z) : is_face d = true <-> 1 <= d <= 6.
Proof.
  unfold is_face. rewrite andb_true_iff, !Z.leb_le. tauto.
Qed.

Lemma well_formed_faces (h : list Z) :
  well_formed h -> forall d, In d h -> 1 <= d <= 6.
Proof.
  intros [_ F] d Hd. rewrite forallb_forall in F. now apply is_face_iff, F.
Qed.

Lemma well_formed_cons (h : list Z) :
  well_formed h -> exists d ds, h = d :: ds.
Proof.
  intros [L _]. destruct h as [| d ds]; [discriminate | eauto].
Qed.

Lemma well_formed_Permutation (h h' : list Z) :
  Permutation h h' -> well_formed h -> well_formed h'.
Proof.
  intros P [L F]. split.
  - now rewrite <- (Permutation_length P).
  - rewrite forallb_forall in *. intros d Hd. apply F.
    now apply (Permutation_in d (Permutation_sym P)).
Qed.

Lemma total_bounds (h : list Z) :
  (forall d, In d h -> 1 <= d <= 6) ->
  Z.of_nat (length h) <= total h <= 6 * Z.of_nat (length h).
Proof.
  induction h as [| d ds IH]; intros F.
  - simpl. lia.
  - assert (1 <= d <= 6) by (apply F; now left).
    assert (Z.of_nat (length ds) <= total ds <= 6 * Z.of_nat (length ds))
      by (apply IH; intros x Hx; apply F; now right).
    unfold total in *. simpl fold_right. simpl length. lia.
Qed.

Lemma distinct_values_In (h : list Z) (v : Z) : In v (distinct_values h) <-> In v h.
Proof.
  apply nodup_In.
Qed.

Lemma distinct_values_Permutation (h h' : list Z) :
  Permutation h h' -> Permutation (distinct_values h) (distinct_values h').
Proof.
  intros P. apply NoDup_Permutation; try apply NoDup_nodup.
  intros v. rewrite !distinct_values_In.
  split; apply Permutation_in; [assumption | now apply Permutation_sym].
Qed.

(** One distinct value: the hand is not empty and every die shows the
    value of the first. *)
Lemma one_distinct_value (d : Z) (ds : list Z) :
  length (distinct_values (d :: ds)) = 1%nat <-> (forall x, In x (d :: ds) -> x = d).
Proof.
  split.
  - intros L x Hx.
    destruct (distinct_values (d :: ds)) as [| v [| w l]] eqn:E; try discriminate.
    assert (Hd : In d [v]) by (rewrite <- E, distinct_values_In; now left).
    assert (Hx' : In x [v]) by (rewrite <- E, distinct_values_In; exact Hx).
    destruct Hd as [<- | []]. destruct Hx' as [<- | []]. reflexivity.
  - intros A.
    assert (U : (length (distinct_values (d :: ds)) <= length [d])%nat).
    { apply NoDup_incl_length; [apply NoDup_nodup |].
      intros x Hx. apply distinct_values_In, A in Hx. now left. }
    assert (I : In d (distinct_values (d :: ds)))
      by (apply distinct_values_In; now left).
    destruct (distinct_values (d :: ds)); [destruct I |]. simpl in *. lia.
Qed.

Lemma first_is_iff (arr : list Z) (v : Z) :
  first_is arr v = true <-> exists rest, arr = v :: rest.
Proof.
  unfold first_is. destruct arr as [| x rest]; simpl.
  - split; [discriminate | intros [? ?]; discriminate].
  - rewrite Z.eqb_eq. split.
    + intros ->. eauto.
    + intros [? E]. now inversion E.
Qed.

(** The test of [Yahtzee.evalRoll], on five dice. *)
Lemma yahtzee_check (h : list Z) :
  length h = 5%nat ->
  first_is (freq h) 5 = true <-> length (distinct_values h) = 1%nat.
Proof.
  intros L. destruct h as [| d ds]; [discriminate |].
  rewrite one_distinct_value, <- count_full, L.
  unfold first_is. rewrite freq_head, Z.eqb_eq. reflexivity.
Qed.

(** Five dice of one value give the single frequency 5. *)
Lemma freq_one_distinct (h : list Z) :
  length h = 5%nat -> length (distinct_values h) = 1%nat -> freq h = [5].
Proof.
  intros L D. pose proof (proj2 (yahtzee_check h L) D) as F.
  apply first_is_iff in F. destruct F as [rest E].
  pose proof (freq_length h) as FL. rewrite E, D in FL.
  destruct rest; [assumption | discriminate].
Qed.

Lemma five_equal (h : list Z) (v : Z) :
  length h = 5%nat -> (forall x, In x h -> x = v) -> h = [v; v; v; v; v].
Proof.
  intros L A.
  destruct h as [| a [| b [| c [| d [| e [| ]]]]]]; try discriminate.
  rewrite (A a), (A b), (A c), (A d), (A e); simpl; tauto.
Qed.

(** ** The rules, one by one *)

(** C1.  On a well-formed hand the Yahtzee rule returns 50 when the hand has
    exactly one distinct face value, that is when all five dice show the same
    value, and 0 otherwise.  The test the code makes, that the first
    frequency is 5, is equivalent to the one-distinct-value condition, and it
    stays equivalent whatever the order of the frequency sequence. *)
Theorem yahtzee_one_distinct_value (h : list Z) :
  well_formed h ->
  evalRoll yahtzee h
  = Ok (if (length (distinct_values h) =? 1)%nat then 50 else 0)
  /\ (length (distinct_values h) = 1%nat <-> exists v, h = [v; v; v; v; v])
  /\ (first_is (freq h) 5 = true <-> length (distinct_values h) = 1%nat)
  /\ (forall fs, Permutation fs (freq h) ->
        (first_is fs 5 = true <-> length (distinct_values h) = 1%nat)).
Proof.
  intros [L F]. pose proof (yahtzee_check h L) as Y.
  split; [| split; [| split]].
  - unfold yahtzee, evalRoll. f_equal.
    destruct (Nat.eqb_spec (length (distinct_values h)) 1) as [D | D].
    + apply Y in D. now rewrite D.
    + assert (N : first_is (freq h) 5 <> true) by (intros E; apply D, Y, E).
      now destruct (first_is (freq h) 5).
  - destruct h as [| d ds]; [discriminate |]. rewrite one_distinct_value. split.
    + intros A. exists d. now apply five_equal.
    + intros [v E] x Hx. inversion E; subst.
      simpl in Hx. intuition congruence.
  - exact Y.
  - intros fs P. split.
    + intros H. apply first_is_iff in H. destruct H as [rest ->].
      assert (I : In 5 (freq h)) by (apply (Permutation_in 5 P); now left).
      apply In_freq in I. destruct I as [v [Hv C]].
      destruct h as [| d ds]; [discriminate |].
      apply one_distinct_value. intros x Hx.
      assert (A : forall y, In y (d :: ds) -> y = v)
        by (apply count_full; rewrite C, L; reflexivity).
      rewrite (A x Hx). symmetry. apply A. now left.
    + intros D. rewrite (freq_one_distinct h L D) in P.
      apply Permutation_sym, Permutation_length_1_inv in P. now subst.
Qed.

Lemma yahtzee_one_distinct_value_witness :
  well_formed [6; 6; 6; 6; 6] /\ evalRoll yahtzee [6; 6; 6; 6; 6] = Ok 50.
Proof.
  assert (W : well_formed [6; 6; 6; 6; 6]) by (split; reflexivity).
  split; [exact W |].
  exact (proj1 (yahtzee_one_distinct_value [6; 6; 6; 6; 6] W)).
Defined.

(** The test of [LargeStraight.evalRoll]. *)
Lemma large_straight_check (h : list Z) :
  let d := JsSet.of_array h in
  (JsSet.size d =? 5) && (negb (JsSet.has d 1) || negb (JsSet.has d 6)) = true
  <-> five_distinct_not_1_and_6 h.
Proof.
  cbv zeta. unfold five_distinct_not_1_and_6.
  rewrite andb_true_iff, orb_true_iff, !negb_true_iff, Z.eqb_eq.
  rewrite JsSetFacts.size_distinct, !JsSetFacts.has_false, !JsSetFacts.of_array_In.
  split.
  - intros [S N]. split; [lia | tauto].
  - intros [S N]. split; [lia |].
    destruct (In_dec Z.eq_dec 1 h); [right | left]; tauto.
Qed.

(** Five distinct faces without a 1 are 2 to 6; without a 6 they are 1 to 5. *)
Lemma five_distinct_faces (h : list Z) :
  (forall d, In d h -> 1 <= d <= 6) ->
  five_distinct_not_1_and_6 h ->
  Permutation (distinct_values h) [1; 2; 3; 4; 5]
  \/ Permutation (distinct_values h) [2; 3; 4; 5; 6].
Proof.
  intros F [L N].
  destruct (In_dec Z.eq_dec 6 h) as [H6 | H6]; [right | left];
    (apply NoDup_Permutation_bis;
     [ apply NoDup_nodup
     | rewrite L; simpl; lia
     | intros v Hv; rewrite distinct_values_In in Hv;
       pose proof (F v Hv); simpl ]).
  - assert (v <> 1) by (intros ->; tauto). lia.
  - assert (v <> 6) by (intros ->; tauto). lia.
Qed.

Lemma faces_five_distinct (h : list Z) :
  Permutation (distinct_values h) [1; 2; 3; 4; 5]
  \/ Permutation (distinct_values h) [2; 3; 4; 5; 6] ->
  five_distinct_not_1_and_6 h.
Proof.
  intros [P | P]; (split; [apply (Permutation_length P) |]); intros [H1 H6].
  - rewrite <- distinct_values_In in H6.
    apply (Permutation_in 6 P) in H6. simpl in H6. lia.
  - rewrite <- distinct_values_In in H1.
    apply (Permutation_in 1 P) in H1. simpl in H1. lia.
Qed.

(** C2.  On a well-formed hand the Large Straight rule returns 40 when the
    hand has exactly five distinct face values and does not hold both a 1 and
    a 6, and 0 otherwise.  The condition says that the distinct values are 1
    to 5 or 2 to 6.  The hands 1-2-3-4-5 and 2-3-4-5-6 score 40 and
    1-2-3-4-4 scores 0. *)
Theorem large_straight_five_distinct (h : list Z) :
  well_formed h ->
  (five_distinct_not_1_and_6 h -> evalRoll largeStraight h = Ok 40)
  /\ (~ five_distinct_not_1_and_6 h -> evalRoll largeStraight h = Ok 0)
  /\ (five_distinct_not_1_and_6 h <->
      Permutation (distinct_values h) [1; 2; 3; 4; 5]
      \/ Permutation (distinct_values h) [2; 3; 4; 5; 6])
  /\ evalRoll largeStraight [1; 2; 3; 4; 5] = Ok 40
  /\ evalRoll largeStraight [2; 3; 4; 5; 6] = Ok 40
  /\ evalRoll largeStraight [1; 2; 3; 4; 4] = Ok 0.
Proof.
  intros W. pose proof (large_straight_check h) as C. cbv zeta in C.
  split; [| split; [| split; [| repeat split]]].
  - intros S. apply C in S. unfold largeStraight, evalRoll. now rewrite S.
  - intros S. unfold largeStraight, evalRoll.
    destruct (_ && _); [exfalso; apply S, C |]; reflexivity.
  - split.
    + apply five_distinct_faces, well_formed_faces, W.
    + apply faces_five_distinct.
Qed.

Lemma large_straight_five_distinct_witness :
  well_formed [6; 2; 4; 3; 5] /\ evalRoll largeStraight [6; 2; 4; 3; 5] = Ok 40.
Proof.
  assert (W : well_formed [6; 2; 4; 3; 5]) by (split; reflexivity).
  split; [exact W |].
  apply (proj1 (large_straight_five_distinct [6; 2; 4; 3; 5] W)).
  split; [reflexivity |]. intros [H1 _]. simpl in H1. lia.
Defined.

(** Splits on whether face [v] is in the set built from hand [h], leaving
    the fact as a statement about the distinct values. *)
Ltac split_on_face h v :=
  let E := fresh "E" in
  destruct (JsSet.has (JsSet.of_array h) v) eqn:E;
  [ apply JsSetFacts.has_of_array in E
  | apply JsSetFacts.has_false in E; rewrite JsSetFacts.of_array_In in E ];
  rewrite <- (distinct_values_In h v) in E.

(** The two tests of [SmallStraight.evalRoll]. *)
Lemma small_straight_check (score : Z) (description : string) (h : list Z) :
  (three_and_a_neighbour h -> evalRoll (SmallStraight score description) h = Ok score)
  /\ (~ three_and_a_neighbour h -> evalRoll (SmallStraight score description) h = Ok 0).
Proof.
  unfold three_and_a_neighbour, evalRoll. cbv zeta.
  split_on_face h 2; split_on_face h 3; split_on_face h 4;
    split_on_face h 5; split_on_face h 1; split_on_face h 6;
    simpl; split; intros P; solve [reflexivity | exfalso; tauto].
Qed.

Lemma run_present_iff (a b c d : Z) (h : list Z) :
  run_present [a; b; c; d] h <->
  In a (distinct_values h) /\ In b (distinct_values h)
  /\ In c (distinct_values h) /\ In d (distinct_values h).
Proof.
  unfold run_present, incl. simpl. split.
  - intros H. repeat split; apply H; tauto.
  - intros (Ha & Hb & Hc & Hd) x [<- | [<- | [<- | [<- | []]]]]; assumption.
Qed.

(** C3.  On a well-formed hand the Small Straight rule returns 30 when the
    distinct face values hold 2, 3, 4 and one of 1 and 5, or 3, 4, 5 and one
    of 2 and 6, and 0 otherwise.  The condition says that one of the runs
    1-2-3-4, 2-3-4-5 and 3-4-5-6 is wholly present.  The hand 1-2-3-4-4
    scores 30 and 1-2-3-5-6 scores 0. *)
Theorem small_straight_runs (h : list Z) :
  well_formed h ->
  (three_and_a_neighbour h -> evalRoll smallStraight h = Ok 30)
  /\ (~ three_and_a_neighbour h -> evalRoll smallStraight h = Ok 0)
  /\ (three_and_a_neighbour h <->
      run_present [1; 2; 3; 4] h \/ run_present [2; 3; 4; 5] h
      \/ run_present [3; 4; 5; 6] h)
  /\ evalRoll smallStraight [1; 2; 3; 4; 4] = Ok 30
  /\ evalRoll smallStraight [1; 2; 3; 5; 6] = Ok 0.
Proof.
  intros _. split; [| split; [| split; [| split; reflexivity]]].
  - apply small_straight_check.
  - apply small_straight_check.
  - rewrite !run_present_iff. unfold three_and_a_neighbour. cbv zeta. tauto.
Qed.

Lemma small_straight_runs_witness :
  well_formed [3; 6; 4; 3; 5] /\ evalRoll smallStraight [3; 6; 4; 3; 5] = Ok 30.
Proof.
  assert (W : well_formed [3; 6; 4; 3; 5]) by (split; reflexivity).
  split; [exact W |].
  apply (proj1 (small_straight_runs [3; 6; 4; 3; 5] W)).
  right. cbv zeta. simpl. tauto.
Defined.

(** A positive number is a frequency when some face shows that many times. *)
Lemma includes_freq (h : list Z) (n : Z) :
  0 < n ->
  includes (freq h) n = true <-> exists a, occurrences h a = n.
Proof.
  intros Hn. rewrite includes_In, In_freq. split.
  - intros [v [_ C]]. exists v. now rewrite <- count_occurrences.
  - intros [a C]. rewrite <- count_occurrences in C. exists a.
    split; [apply count_pos_In; lia | assumption].
Qed.

(** The test of [FullHouse.evalRoll]. *)
Lemma full_house_check (h : list Z) :
  includes (freq h) 2 && includes (freq h) 3 = true <-> pair_and_triple h.
Proof.
  unfold pair_and_triple.
  rewrite andb_true_iff, !includes_freq by lia. reflexivity.
Qed.

(** C4.  On a well-formed hand the Full House rule returns 25 when some face
    shows exactly twice and some face shows exactly three times, that is when
    the frequencies hold both a 2 and a 3, and 0 otherwise.  Five dice of one
    value score 0.  The hand 2-2-3-3-3 scores 25; 2-2-2-2-2 and 2-2-3-4-5
    score 0. *)
Theorem full_house_pair_and_triple (h : list Z) :
  well_formed h ->
  (pair_and_triple h -> evalRoll fullHouse h = Ok 25)
  /\ (~ pair_and_triple h -> evalRoll fullHouse h = Ok 0)
  /\ (pair_and_triple h <-> In 2 (freq h) /\ In 3 (freq h))
  /\ (forall v, h = [v; v; v; v; v] -> evalRoll fullHouse h = Ok 0)
  /\ evalRoll fullHouse [2; 2; 3; 3; 3] = Ok 25
  /\ evalRoll fullHouse [2; 2; 2; 2; 2] = Ok 0
  /\ evalRoll fullHouse [2; 2; 3; 4; 5] = Ok 0.
Proof.
  intros [L _]. pose proof (full_house_check h) as C.
  split; [| split; [| split; [| split; [| repeat split]]]].
  - intros P. apply C in P. unfold fullHouse, evalRoll. cbv zeta. now rewrite P.
  - intros P. unfold fullHouse, evalRoll. cbv zeta.
    destruct (_ && _); [exfalso; apply P, C |]; reflexivity.
  - now rewrite <- C, andb_true_iff, !includes_In.
  - intros v E. unfold fullHouse, evalRoll. cbv zeta.
    rewrite (freq_one_distinct h L); [reflexivity |].
    subst h. apply one_distinct_value. simpl. intuition congruence.
Qed.

Lemma full_house_pair_and_triple_witness :
  well_formed [5; 1; 5; 1; 5] /\ evalRoll fullHouse [5; 1; 5; 1; 5] = Ok 25.
Proof.
  assert (W : well_formed [5; 1; 5; 1; 5]) by (split; reflexivity).
  split; [exact W |].
  apply (proj1 (full_house_pair_and_triple [5; 1; 5; 1; 5] W)).
  split; [exists 1 | exists 5]; reflexivity.
Defined.

(** The test of [SumDistro.evalRoll], on a hand of faces that is not empty. *)
Lemma sum_distro_check (k : Z) (h : list Z) :
  h <> [] ->
  (forall d, In d h -> 1 <= d <= 6) ->
  some (fun c => c >=? k) (freq h) = true <-> of_a_kind k h.
Proof.
  intros NE F. rewrite some_freq. unfold of_a_kind, faces. split.
  - intros [v [Hv C]]. exists v. rewrite <- count_occurrences.
    apply Z.geb_le in C. pose proof (F v Hv). simpl. lia.
  - intros [v [_ C]]. rewrite <- count_occurrences in C.
    destruct (In_dec Z.eq_dec v h) as [Hv | Hv].
    + exists v. split; [assumption | apply Z.geb_le, C].
    + rewrite (count_zero h v Hv) in C.
      destruct h as [| d ds]; [congruence |]. exists d.
      assert (I : In d (d :: ds)) by now left.
      split; [assumption |]. apply Z.geb_le. apply count_pos_In in I. lia.
Qed.

Lemma sum_distro_total (k : Z) (description : string) (h : list Z) :
  h <> [] ->
  (forall d, In d h -> 1 <= d <= 6) ->
  (of_a_kind k h -> evalRoll (SumDistro k description) h = Ok (total h))
  /\ (~ of_a_kind k h -> evalRoll (SumDistro k description) h = Ok 0).
Proof.
  intros NE F. pose proof (sum_distro_check k h NE F) as C.
  unfold evalRoll. split; intros P.
  - apply C in P. rewrite P. now apply sum_total.
  - destruct (some _ _); [exfalso; apply P, C |]; reflexivity.
Qed.

(** With no requirement every hand qualifies. *)
Lemma of_a_kind_0 (h : list Z) : of_a_kind 0 h.
Proof.
  exists 1. split; [now left |]. unfold occurrences. lia.
Qed.

(** C5.  On a well-formed hand a Distribution Threshold Sum rule with
    threshold [k] returns the sum of the five dice when some face shows at
    least [k] times, and 0 otherwise; with [k = 0] it returns the sum
    whatever the hand, so chance is always the sum.  With [k = 3] the hand
    4-4-4-2-1 scores 15 and 4-4-3-2-1 scores 0. *)
Theorem sum_distro_threshold (k : Z) (description : string) (h : list Z) :
  well_formed h ->
  (of_a_kind k h -> evalRoll (SumDistro k description) h = Ok (total h))
  /\ (~ of_a_kind k h -> evalRoll (SumDistro k description) h = Ok 0)
  /\ (k = 0 -> evalRoll (SumDistro k description) h = Ok (total h))
  /\ evalRoll chance h = Ok (total h)
  /\ evalRoll threeOfKind [4; 4; 4; 2; 1] = Ok 15
  /\ evalRoll threeOfKind [4; 4; 3; 2; 1] = Ok 0.
Proof.
  intros W.
  assert (NE : h <> []) by (destruct (well_formed_cons h W) as (d & ds & ->); discriminate).
  pose proof (well_formed_faces h W) as F.
  split; [| split; [| split; [| split; [| split; reflexivity]]]].
  - apply sum_distro_total; assumption.
  - apply sum_distro_total; assumption.
  - intros ->. apply sum_distro_total; try assumption. apply of_a_kind_0.
  - apply sum_distro_total; try assumption. apply of_a_kind_0.
Qed.

Lemma sum_distro_threshold_witness :
  well_formed [4; 2; 4; 4; 4]
  /\ evalRoll fourOfKind [4; 2; 4; 4; 4] = Ok 18.
Proof.
  assert (W : well_formed [4; 2; 4; 4; 4]) by (split; reflexivity).
  split; [exact W |].
  apply (proj1 (sum_distro_threshold 4 "Sum of four of a kind" [4; 2; 4; 4; 4] W)).
  exists 4. split; [simpl; tauto | vm_compute; discriminate].
Defined.

(** C6.  On a well-formed hand the Single-Value Total rule for face [v]
    returns [v] times the number of dice that show [v]; the six rules from
    ones to sixes are its instances for 1 to 6.  On 2-2-3-2-5 the twos rule
    returns 6. *)
Theorem total_one_number_occurrences (v : Z) (description : string) (h : list Z) :
  well_formed h ->
  1 <= v <= 6 ->
  evalRoll (TotalOneNumber v description) h = Ok (v * occurrences h v)
  /\ Forall (fun rv => evalRoll (fst rv) h = Ok (snd rv * occurrences h (snd rv)))
       [(ones, 1); (twos, 2); (threes, 3); (fours, 4); (fives, 5); (sixes, 6)]
  /\ evalRoll twos [2; 2; 3; 2; 5] = Ok 6.
Proof.
  intros _ _. split; [| split; [| reflexivity]].
  - unfold evalRoll. now rewrite count_occurrences.
  - repeat apply Forall_cons; try apply Forall_nil; cbn [fst snd];
      unfold ones, twos, threes, fours, fives, sixes, evalRoll;
      now rewrite count_occurrences.
Qed.

Lemma total_one_number_occurrences_witness :
  well_formed [2; 2; 3; 2; 5] /\ 1 <= 2 <= 6
  /\ evalRoll (TotalOneNumber 2 "Sum of 2's") [2; 2; 3; 2; 5]
     = Ok (2 * occurrences [2; 2; 3; 2; 5] 2).
Proof.
  assert (W : well_formed [2; 2; 3; 2; 5]) by (split; reflexivity).
  assert (V : 1 <= 2 <= 6) by (split; discriminate).
  split; [exact W | split; [exact V |]].
  exact (proj1 (total_one_number_occurrences 2 "Sum of 2's" [2; 2; 3; 2; 5] W V)).
Defined.

(** ** Every rule at once *)

Lemma catalog_within_award (r : Rule) : In r catalog -> within_award r.
Proof.
  unfold catalog. simpl.
  intros H; repeat (destruct H as [<- | H]); try (simpl; lia); destruct H.
Qed.

(** On a well-formed hand [evalRoll] returns a score, and it lies between 0
    and the maximum of the class. *)
Lemma evalRoll_bounds (r : Rule) (h : list Z) :
  within_award r -> well_formed h ->
  exists n, evalRoll r h = Ok n /\ 0 <= n <= max_award r.
Proof.
  intros A W. pose proof (well_formed_faces h W) as F. pose proof W as [L _].
  destruct r as [v ? | k desc | s ? | s ? | s ? | s ?]; simpl in A; simpl max_award.
  - eexists. split; [reflexivity |].
    pose proof (count_bounds h v) as B. rewrite L in B. nia.
  - assert (NE : h <> []) by (intros ->; discriminate).
    pose proof (total_bounds h F) as T. rewrite L in T.
    unfold evalRoll. destruct (some _ _).
    + exists (total h). split; [now apply sum_total | lia].
    + exists 0. split; [reflexivity | lia].
  - unfold evalRoll. cbv zeta. eexists. split; [reflexivity |].
    destruct (_ && _); lia.
  - unfold evalRoll. cbv zeta.
    destruct (_ && _); [| destruct (_ && _)];
      eexists; (split; [reflexivity | lia]).
  - unfold evalRoll. cbv zeta. eexists. split; [reflexivity |].
    destruct (_ && _); lia.
  - unfold evalRoll. eexists. split; [reflexivity |].
    destruct (first_is _ _); lia.
Qed.

(** C7.  On a well-formed hand each of the thirteen catalog rules returns an
    integer between 0 and its maximum award: 30 for the six single-value
    rules and the three sum rules, 25 for full house, 30 for small straight,
    40 for large straight and 50 for Yahtzee. *)
Theorem catalog_score_bounds (r : Rule) (h : list Z) :
  In r catalog -> well_formed h ->
  (exists n, evalRoll r h = Ok n /\ 0 <= n <= max_award r)
  /\ length catalog = 13%nat
  /\ map max_award catalog = [30; 30; 30; 30; 30; 30; 30; 30; 25; 30; 40; 50; 30].
Proof.
  intros C W. split; [| split; reflexivity].
  apply evalRoll_bounds; [apply catalog_within_award |]; assumption.
Qed.

Lemma catalog_score_bounds_witness :
  In sixes catalog /\ well_formed [6; 6; 6; 6; 6]
  /\ exists n, evalRoll sixes [6; 6; 6; 6; 6] = Ok n /\ 0 <= n <= 30.
Proof.
  assert (C : In sixes catalog) by (simpl; tauto).
  assert (W : well_formed [6; 6; 6; 6; 6]) by (split; reflexivity).
  split; [exact C | split; [exact W |]].
  exact (proj1 (catalog_score_bounds sixes [6; 6; 6; 6; 6] C W)).
Defined.

(** ** Running the methods on the heap *)

Section Runs.
Import Heap.

Lemma replace_last (heap : Heap.t) (o o' : object) :
  replace (length heap) o' (heap ++ [o]) = heap ++ [o'].
Proof.
  induction heap as [| x heap IH]; simpl; [reflexivity | now rewrite IH].
Qed.

(** Objects keep their references when the heap grows. *)
Lemma nth_error_grow (heap fresh : Heap.t) (l : ref) (o : object) :
  nth_error heap l = Some o -> nth_error (heap ++ fresh) l = Some o.
Proof.
  intros H. rewrite nth_error_app1; [assumption |].
  apply nth_error_Some. congruence.
Qed.

Lemma load_last (heap : Heap.t) (o : object) :
  load (length heap) (heap ++ [o]) = (Ok o, heap ++ [o]).
Proof.
  unfold load. rewrite nth_error_app2, Nat.sub_diag by apply Nat.le_refl.
  reflexivity.
Qed.

Lemma run_elements (heap : Heap.t) (dice : ref) (h : list Z) :
  nth_error heap dice = Some (ArrayObj h) ->
  OnHeap.elements dice heap = (Ok h, heap).
Proof.
  intros H. unfold OnHeap.elements, bind, load. now rewrite H.
Qed.

(** The loop of [freq] only ever rewrites the map it was given. *)
Lemma run_freq_loop (arr : list Z) (heap : Heap.t) (m : JsMap.t) :
  for_of arr
    (fun d => bind (OnHeap.map_get (length heap) d)
                (fun c => OnHeap.map_set (length heap) d (or_zero c + 1)))
    (heap ++ [MapObj m])
  = (Ok tt, heap ++ [MapObj (fold_left freq_step arr m)]).
Proof.
  revert m. induction arr as [| d arr IH]; intros m; simpl.
  - reflexivity.
  - unfold bind at 1. unfold bind at 1.
    unfold OnHeap.map_get at 1. unfold bind at 1. rewrite load_last. simpl.
    unfold OnHeap.map_set, bind. rewrite load_last. simpl.
    unfold store. rewrite replace_last. apply IH.
Qed.

Lemma run_freq (heap : Heap.t) (dice : ref) (h : list Z) :
  nth_error heap dice = Some (ArrayObj h) ->
  OnHeap.freq dice heap
  = (Ok (freq h), heap ++ [MapObj (fold_left freq_step h JsMap.empty)]).
Proof.
  intros H. unfold OnHeap.freq, OnHeap.new_Map, new_object.
  unfold bind at 1. unfold bind at 1.
  rewrite (run_elements _ dice h) by now apply nth_error_grow.
  unfold bind at 1. rewrite run_freq_loop.
  unfold OnHeap.map_values, bind. rewrite load_last. reflexivity.
Qed.

Lemma run_sum (heap : Heap.t) (dice : ref) (h : list Z) :
  nth_error heap dice = Some (ArrayObj h) ->
  OnHeap.sum dice heap = (sum h, heap).
Proof.
  intros H. unfold OnHeap.sum, bind. now rewrite (run_elements _ _ h).
Qed.

Lemma run_count (heap : Heap.t) (dice : ref) (h : list Z) (val : Z) :
  nth_error heap dice = Some (ArrayObj h) ->
  OnHeap.count dice val heap = (Ok (count h val), heap).
Proof.
  intros H. unfold OnHeap.count, bind. now rewrite (run_elements _ _ h).
Qed.

Lemma run_new_Set (heap : Heap.t) (dice : ref) (h : list Z) :
  nth_error heap dice = Some (ArrayObj h) ->
  bind (OnHeap.new_Set dice) OnHeap.set_elements heap
  = (Ok (JsSet.of_array h), heap ++ [SetObj (JsSet.of_array h)]).
Proof.
  intros H. unfold OnHeap.new_Set, bind.
  rewrite (run_elements _ _ h) by assumption.
  unfold new_object, OnHeap.set_elements, bind. now rewrite load_last.
Qed.

Lemma bind_assoc_run {A B C : Type} (m : JS A) (k : A -> JS B) (k' : B -> JS C)
    (heap : Heap.t) :
  bind m (fun a => bind (k a) k') heap = bind (bind m k) k' heap.
Proof.
  unfold bind. destruct (m heap) as [[a |] heap']; reflexivity.
Qed.

(** On the heap [evalRoll] returns what it returns on the elements of the
    array, and leaves every object of the heap as it was: the heap only
    grows by the map or set the call allocated. *)
Lemma run_evalRoll (this : Rule) (heap : Heap.t) (dice : ref) (h : list Z) :
  nth_error heap dice = Some (ArrayObj h) ->
  exists fresh, OnHeap.evalRoll this dice heap = (evalRoll this h, heap ++ fresh).
Proof.
  intros H.
  destruct this as [v ? | k ? | s ? | s ? | s ? | s ?]; unfold OnHeap.evalRoll, evalRoll.
  - exists []. rewrite app_nil_r. unfold bind. now rewrite (run_count _ _ h).
  - eexists. unfold bind. rewrite (run_freq _ _ h) by assumption.
    destruct (some _ _).
    + rewrite (run_sum _ _ h) by now apply nth_error_grow. reflexivity.
    + reflexivity.
  - eexists. unfold bind. rewrite (run_freq _ _ h) by assumption. reflexivity.
  - eexists. rewrite bind_assoc_run. unfold bind at 1.
    rewrite (run_new_Set _ _ h) by assumption. cbv zeta.
    destruct (_ && _); [reflexivity |]. destruct (_ && _); reflexivity.
  - eexists. rewrite bind_assoc_run. unfold bind at 1.
    rewrite (run_new_Set _ _ h) by assumption. reflexivity.
  - eexists. unfold bind. rewrite (run_freq _ _ h) by assumption. reflexivity.
Qed.
End Runs.

(** The description of a rule plays no part in its score. *)
Lemma evalRoll_configuration (r r' : Rule) (h : list Z) :
  configuration r' = configuration r -> evalRoll r' h = evalRoll r h.
Proof.
  destruct r, r'; simpl; intros E; inversion E; reflexivity.
Qed.

(** C8.  For a catalog rule and a well-formed hand, evaluation is total,
    deterministic and free of side effects.  Run on any heap in which [dice]
    refers to the hand, [evalRoll] returns a score [n] and never raises; every
    object the heap held, the hand among them, is left as it was (the heap
    only grows by what the call allocated for itself); a second evaluation
    after the first returns the same [n]; and [n] is the same on any other
    heap and for any instance of the same class and parameter, so it depends
    on the hand and the configuration of the rule and on nothing else. *)
Theorem evalRoll_total_deterministic
    (r : Rule) (h : list Z) (heap : Heap.t) (dice : Heap.ref) :
  In r catalog -> well_formed h ->
  nth_error heap dice = Some (Heap.ArrayObj h) ->
  exists n,
    0 <= n
    /\ evalRoll r h = Ok n
    /\ (exists fresh, OnHeap.evalRoll r dice heap = (Ok n, heap ++ fresh))
    /\ (exists fresh fresh',
          bind (OnHeap.evalRoll r dice)
            (fun a => bind (OnHeap.evalRoll r dice) (fun b => ret (a, b))) heap
          = (Ok (n, n), heap ++ fresh ++ fresh'))
    /\ (forall r' heap' dice',
          configuration r' = configuration r ->
          nth_error heap' dice' = Some (Heap.ArrayObj h) ->
          fst (OnHeap.evalRoll r' dice' heap') = Ok n).
Proof.
  intros C W H.
  destruct (evalRoll_bounds r h (catalog_within_award r C) W) as [n [E B]].
  exists n. split; [lia |]. split; [exact E |].
  destruct (run_evalRoll r heap dice h H) as [fresh R]. rewrite E in R.
  split; [now exists fresh |]. split.
  - destruct (run_evalRoll r (heap ++ fresh) dice h) as [fresh' R'];
      [now apply nth_error_grow |].
    rewrite E in R'. exists fresh, fresh'.
    unfold bind. rewrite R, R'. unfold ret. now rewrite app_assoc.
  - intros r' heap' dice' Ec H'.
    destruct (run_evalRoll r' heap' dice' h H') as [fresh' R'].
    rewrite R'. simpl. now rewrite (evalRoll_configuration r r' h Ec).
Qed.

Lemma evalRoll_total_deterministic_witness :
  In chance catalog /\ well_formed [1; 3; 3; 6; 2]
  /\ nth_error [Heap.ArrayObj [1; 3; 3; 6; 2]] 0 = Some (Heap.ArrayObj [1; 3; 3; 6; 2])
  /\ exists n, 0 <= n /\ evalRoll chance [1; 3; 3; 6; 2] = Ok n.
Proof.
  assert (C : In chance catalog) by (simpl; tauto).
  assert (W : well_formed [1; 3; 3; 6; 2]) by (split; reflexivity).
  split; [exact C | split; [exact W | split; [reflexivity |]]].
  destruct (evalRoll_total_deterministic chance [1; 3; 3; 6; 2]
              [Heap.ArrayObj [1; 3; 3; 6; 2]] 0%nat C W eq_refl)
    as [n [B [E _]]].
  exists n. split; assumption.
Defined.

(** ** The order of the dice *)

Lemma existsb_Permutation (p : Z -> bool) (l l' : list Z) :
  Permutation l l' -> existsb p l = existsb p l'.
Proof.
  induction 1 as [| x l l' _ IH | x y l | l l' l'' _ IH1 _ IH2]; simpl.
  - reflexivity.
  - now rewrite IH.
  - destruct (p x), (p y); reflexivity.
  - now rewrite IH1.
Qed.

Lemma of_array_Permutation (h h' : list Z) :
  Permutation h h' -> Permutation (JsSet.of_array h) (JsSet.of_array h').
Proof.
  intros P. apply NoDup_Permutation; try apply JsSetFacts.of_array_NoDup.
  intros v. rewrite !JsSetFacts.of_array_In.
  split; apply Permutation_in; [assumption | now apply Permutation_sym].
Qed.

Lemma has_Permutation (h h' : list Z) (v : Z) :
  Permutation h h' ->
  JsSet.has (JsSet.of_array h) v = JsSet.has (JsSet.of_array h') v.
Proof.
  intros P. apply existsb_Permutation, of_array_Permutation, P.
Qed.

(** The first frequency depends on which die comes first, but whether it is
    5 does not, on five dice. *)
Lemma first_is_5_Permutation (h h' : list Z) :
  length h = 5%nat -> Permutation h h' ->
  first_is (freq h) 5 = first_is (freq h') 5.
Proof.
  intros L P. apply eq_true_iff_eq.
  rewrite (yahtzee_check h L).
  rewrite (yahtzee_check h') by now rewrite <- (Permutation_length P).
  now rewrite (Permutation_length (distinct_values_Permutation h h' P)).
Qed.

(** A rule of any class scores two orderings of five dice alike. *)
Lemma evalRoll_Permutation (r : Rule) (h h' : list Z) :
  length h = 5%nat -> Permutation h h' -> evalRoll r h = evalRoll r h'.
Proof.
  intros L P.
  pose proof (freq_Permutation h h' P) as PF.
  destruct r as [v ? | k ? | s ? | s ? | s ? | s ?]; unfold evalRoll; cbv zeta.
  - now rewrite (count_Permutation h h' v P).
  - unfold some. rewrite (existsb_Permutation _ _ _ PF), (sum_Permutation h h' P).
    reflexivity.
  - unfold includes. now rewrite !(existsb_Permutation _ _ _ PF).
  - now rewrite !(has_Permutation h h' _ P).
  - unfold JsSet.size.
    rewrite !(has_Permutation h h' _ P).
    now rewrite (Permutation_length (of_array_Permutation h h' P)).
  - now rewrite (first_is_5_Permutation h h' L P).
Qed.

(** C9.  A catalog rule gives two well-formed hands that are permutations of
    each other the same score.  For the Yahtzee rule the first frequency
    itself can differ between two orderings, but the test that it is 5 comes
    out the same. *)
Theorem catalog_score_Permutation (r : Rule) (h h' : list Z) :
  In r catalog -> well_formed h -> well_formed h' -> Permutation h h' ->
  evalRoll r h = evalRoll r h'
  /\ first_is (freq h) 5 = first_is (freq h') 5
  /\ nth_error (freq [6; 6; 5; 5; 5]) 0 <> nth_error (freq [5; 5; 5; 6; 6]) 0.
Proof.
  intros _ [L _] _ P. split; [| split].
  - now apply evalRoll_Permutation.
  - now apply first_is_5_Permutation.
  - discriminate.
Qed.

Lemma catalog_score_Permutation_witness :
  In yahtzee catalog /\ well_formed [6; 6; 5; 5; 5] /\ well_formed [5; 5; 5; 6; 6]
  /\ Permutation [6; 6; 5; 5; 5] [5; 5; 5; 6; 6]
  /\ evalRoll yahtzee [6; 6; 5; 5; 5] = evalRoll yahtzee [5; 5; 5; 6; 6].
Proof.
  assert (C : In yahtzee catalog) by (simpl; tauto).
  assert (W : well_formed [6; 6; 5; 5; 5]) by (split; reflexivity).
  assert (W' : well_formed [5; 5; 5; 6; 6]) by (split; reflexivity).
  assert (P : Permutation [6; 6; 5; 5; 5] [5; 5; 5; 6; 6]).
  { change [6; 6; 5; 5; 5] with ([6; 6] ++ [5; 5; 5]).
    change [5; 5; 5; 6; 6] with ([5; 5; 5] ++ [6; 6]).
    apply Permutation_app_comm. }
  split; [exact C | split; [exact W | split; [exact W' | split; [exact P |]]]].
  exact (proj1 (catalog_score_Permutation yahtzee _ _ C W W' P)).
Defined.

(** ** The empty hand *)

(** C10.  Each of the thirteen catalog rules returns 0 on the empty hand and
    raises nothing, although [sum] itself raises on the empty array: the test
    of a sum rule fails on the empty frequency sequence whatever the
    threshold, so [sum] is not called.  Chance, whose threshold is 0, returns
    0 on the empty hand. *)
Theorem empty_hand_scores_zero :
  Forall (fun r => evalRoll r [] = Ok 0) catalog
  /\ length catalog = 13%nat
  /\ sum [] = TypeError
  /\ freq [] = []
  /\ (forall k description,
        some (fun c => c >=? k) (freq []) = false
        /\ evalRoll (SumDistro k description) [] = Ok 0)
  /\ evalRoll chance [] = Ok 0.
Proof.
  split; [| repeat split].
  repeat apply Forall_cons; try apply Forall_nil; reflexivity.
Qed.

(** ** More on the helpers of [Rule] *)


(** X2.  [freq] holds one count per distinct value, in the order in which
    [new Set(dice)] iterates: the k-th frequency is the number of dice that
    show the k-th element of the set, and the set holds each value of the
    array once. *)
Theorem freq_follows_set_order (dice : list Z) :
  freq dice = map (occurrences dice) (JsSet.of_array dice)
  /\ NoDup (JsSet.of_array dice)
  /\ (forall v, In v (JsSet.of_array dice) <-> In v dice).
Proof.
  split; [| split].
  - rewrite freq_counts. apply map_ext. intros v. apply count_occurrences.
  - apply JsSetFacts.of_array_NoDup.
  - intros v. apply JsSetFacts.of_array_In.
Qed.

Lemma or_zero_Some (n : Z) : or_zero (Some n) = n.
Proof.
  simpl. destruct (n =? 0) eqn:E; [apply Z.eqb_eq in E; now subst | reflexivity].
Qed.

(** One iteration adds one to the total of the counts, whatever the map. *)
Lemma freq_step_total (m : JsMap.t) (d : Z) :
  total (JsMap.values (freq_step m d)) = total (JsMap.values m) + 1.
Proof.
  unfold freq_step. induction m as [| [k n] m IH]; simpl.
  - reflexivity.
  - destruct (k =? d) eqn:E.
    + rewrite or_zero_Some. unfold total. simpl. lia.
    + unfold total in *. simpl in *. rewrite IH. lia.
Qed.

Lemma fold_freq_step_total (dice : list Z) (m : JsMap.t) :
  total (JsMap.values (fold_left freq_step dice m))
  = total (JsMap.values m) + Z.of_nat (length dice).
Proof.
  revert m. induction dice as [| d ds IH]; intros m.
  - simpl. lia.
  - simpl fold_left. rewrite IH, freq_step_total. simpl length. lia.
Qed.

Lemma freq_total (dice : list Z) : total (freq dice) = Z.of_nat (length dice).
Proof.
  unfold freq. rewrite fold_freq_step_total. reflexivity.
Qed.

(** X3.  Every frequency is at least 1, the frequencies add up to the number
    of dice, and there are as many of them as distinct values, whatever the
    array holds. *)
Theorem freq_positive_sum_length (dice : list Z) :
  Forall (fun c => 1 <= c) (freq dice)
  /\ total (freq dice) = Z.of_nat (length dice)
  /\ length (freq dice) = length (distinct_values dice).
Proof.
  split; [| split].
  - apply Forall_forall. intros c Hc. apply In_freq in Hc.
    destruct Hc as [v [Hv <-]]. apply count_pos_In in Hv. lia.
  - apply freq_total.
  - apply freq_length.
Qed.

Lemma get_set (m : JsMap.t) (k v k' : Z) :
  JsMap.get (JsMap.set m k v) k' = if k =? k' then Some v else JsMap.get m k'.
Proof.
  induction m as [| [a x] m IH]; simpl.
  - reflexivity.
  - destruct (a =? k) eqn:E; simpl.
    + apply Z.eqb_eq in E. subst a. now destruct (k =? k').
    + rewrite IH. destruct (a =? k') eqn:E'; [| reflexivity].
      apply Z.eqb_eq in E'. subst a. now rewrite Z.eqb_sym, E.
Qed.

(** X4.  Each iteration of the loop of [freq] sets the entry of the die to
    one more than it was (or to 1 when there was none) and leaves every other
    entry alone; once the loop is over the map gives each value of the array
    the number of dice that show it and has no entry for any other value. *)
Theorem freq_map_lookup (dice : list Z) (m : JsMap.t) (d v : Z) :
  JsMap.get (freq_step m d) v
  = (if d =? v then Some (or_zero (JsMap.get m d) + 1) else JsMap.get m v)
  /\ JsMap.get (fold_left freq_step dice JsMap.empty) v
     = (if occurrences dice v =? 0 then None else Some (occurrences dice v)).
Proof.
  split.
  - unfold freq_step. apply get_set.
  - change JsMap.empty with (entries []). rewrite fold_freq_step. simpl.
    unfold entries. rewrite get_tabulate, <- count_occurrences.
    destruct (JsSet.has (JsSet.of_array dice) v) eqn:H.
    + apply JsSetFacts.has_of_array, count_pos_In in H.
      destruct (Z.eqb_spec (count dice v) 0); [lia | reflexivity].
    + apply JsSetFacts.has_false in H. rewrite JsSetFacts.of_array_In in H.
      now rewrite (count_zero dice v H).
Qed.

(** X5.  Reordering the dice reorders the frequencies and changes nothing
    else: the frequency sequences of two permutations of one array are
    permutations of each other.  This holds for arrays of any length and
    values. *)
Theorem freq_multiset_Permutation (h h' : list Z) :
  Permutation h h' -> Permutation (freq h) (freq h').
Proof.
  apply freq_Permutation.
Qed.

Lemma freq_multiset_Permutation_witness :
  Permutation [2; 5; 2; 2] [5; 2; 2; 2]
  /\ Permutation (freq [2; 5; 2; 2]) (freq [5; 2; 2; 2]).
Proof.
  assert (P : Permutation [2; 5; 2; 2] [5; 2; 2; 2]) by apply perm_swap.
  split; [exact P |].
  exact (freq_multiset_Permutation [2; 5; 2; 2] [5; 2; 2; 2] P).
Defined.

Lemma freq_nil_inv (dice : list Z) : freq dice = [] -> dice = [].
Proof.
  intros E. pose proof (freq_total dice) as T. rewrite E in T.
  destruct dice; [reflexivity | discriminate].
Qed.

(** ** The rules on arrays of any length and values *)

(** X6.  [evalRoll] raises nothing, for a rule of any class and parameter
    and for any array, empty or not: a sum rule calls [sum] only when some
    frequency passed its test, and then the array is not empty. *)
Theorem evalRoll_never_raises (r : Rule) (dice : list Z) :
  exists n, evalRoll r dice = Ok n.
Proof.
  destruct r as [v ? | k ? | s ? | s ? | s ? | s ?]; unfold evalRoll; cbv zeta;
    try (eexists; reflexivity).
  - destruct (some _ (freq dice)) eqn:E; [| eexists; reflexivity].
    destruct dice as [| d ds]; [discriminate E |].
    rewrite sum_total by discriminate. eexists; reflexivity.
  - destruct (_ && _); [eexists; reflexivity |].
    destruct (_ && _); eexists; reflexivity.
Qed.

(** X7.  On any array that is not empty the Yahtzee rule awards its score
    exactly when the value of the first die shows five times in all, and on
    the empty array it returns 0.  With more than five dice the outcome
    depends on which die comes first: two orderings of the same six dice can
    score differently. *)
Theorem yahtzee_counts_first_die
    (score : Z) (description : string) (d : Z) (ds : list Z) :
  evalRoll (Yahtzee score description) (d :: ds)
  = Ok (if occurrences (d :: ds) d =? 5 then score else 0)
  /\ evalRoll (Yahtzee score description) [] = Ok 0
  /\ (exists h h' : list Z,
        Permutation h h' /\ evalRoll yahtzee h <> evalRoll yahtzee h').
Proof.
  split; [| split].
  - unfold evalRoll, first_is. now rewrite freq_head, count_occurrences.
  - reflexivity.
  - exists [1; 1; 1; 1; 1; 2], [2; 1; 1; 1; 1; 1]. split; [| discriminate].
    change [1; 1; 1; 1; 1; 2] with ([1; 1; 1; 1; 1] ++ [2]).
    change [2; 1; 1; 1; 1; 1] with ([2] ++ [1; 1; 1; 1; 1]).
    apply Permutation_app_comm.
Qed.



(** ** How the sum rules relate *)

Lemma forallb_is_face (h : list Z) :
  forallb is_face h = true <-> (forall d, In d h -> 1 <= d <= 6).
Proof.
  rewrite forallb_forall. split; intros F d Hd; apply is_face_iff, F, Hd.
Qed.

(** A threshold of at most 1 is met by any die. *)
Lemma sum_distro_low (k : Z) (description : string) (h : list Z) :
  k <= 1 -> h <> [] -> evalRoll (SumDistro k description) h = Ok (total h).
Proof.
  intros K NE. unfold evalRoll.
  assert (S : some (fun c => c >=? k) (freq h) = true).
  { destruct h as [| d ds]; [congruence |]. apply some_freq. exists d.
    assert (I : In d (d :: ds)) by now left.
    split; [assumption |]. apply Z.geb_le. apply count_pos_In in I. lia. }
  rewrite S. now apply sum_total.
Qed.

(** Each die adds its value to the score of the rule of its face. *)
Lemma weighted_counts (h : list Z) :
  forallb is_face h = true ->
  1 * count h 1 + 2 * count h 2 + 3 * count h 3
  + 4 * count h 4 + 5 * count h 5 + 6 * count h 6 = total h.
Proof.
  induction h as [| d ds IH]; intros F.
  - reflexivity.
  - simpl in F. apply andb_true_iff in F. destruct F as [Fd F].
    specialize (IH F). apply is_face_iff in Fd. rewrite !count_cons.
    unfold total in *. simpl fold_right.
    assert (D : d = 1 \/ d = 2 \/ d = 3 \/ d = 4 \/ d = 5 \/ d = 6) by lia.
    destruct D as [-> | [-> | [-> | [-> | [-> | ->]]]]]; simpl Z.eqb; cbv iota; lia.
Qed.

(** X9.  On an array of faces, of any length, the scores of the six rules
    from ones to sixes add up to the score of chance: every die is counted by
    exactly one of the six.  This includes the empty array, where all seven
    are 0. *)
Theorem upper_section_adds_up_to_chance (h : list Z) :
  forallb is_face h = true ->
  exists a b c d e f,
    evalRoll ones h = Ok a /\ evalRoll twos h = Ok b
    /\ evalRoll threes h = Ok c /\ evalRoll fours h = Ok d
    /\ evalRoll fives h = Ok e /\ evalRoll sixes h = Ok f
    /\ evalRoll chance h = Ok (a + b + c + d + e + f).
Proof.
  intros F. do 6 eexists. repeat (split; [reflexivity |]).
  rewrite (weighted_counts h F).
  destruct h as [| x xs]; [reflexivity |].
  apply sum_distro_low; [lia | discriminate].
Qed.

Lemma upper_section_adds_up_to_chance_witness :
  forallb is_face [3; 1; 3; 6; 6; 6; 2] = true
  /\ exists a b c d e f,
       evalRoll ones [3; 1; 3; 6; 6; 6; 2] = Ok a
       /\ evalRoll twos [3; 1; 3; 6; 6; 6; 2] = Ok b
       /\ evalRoll threes [3; 1; 3; 6; 6; 6; 2] = Ok c
       /\ evalRoll fours [3; 1; 3; 6; 6; 6; 2] = Ok d
       /\ evalRoll fives [3; 1; 3; 6; 6; 6; 2] = Ok e
       /\ evalRoll sixes [3; 1; 3; 6; 6; 6; 2] = Ok f
       /\ evalRoll chance [3; 1; 3; 6; 6; 6; 2] = Ok (a + b + c + d + e + f).
Proof.
  split; [reflexivity |].
  exact (upper_section_adds_up_to_chance [3; 1; 3; 6; 6; 6; 2] eq_refl).
Defined.

Lemma some_threshold_mono (k k' : Z) (l : list Z) :
  k <= k' ->
  some (fun c => c >=? k') l = true -> some (fun c => c >=? k) l = true.
Proof.
  intros K. unfold some. rewrite !existsb_exists.
  intros [c [Hc G]]. exists c. split; [assumption |].
  apply Z.geb_le. apply Z.geb_le in G. lia.
Qed.

(** X10.  Raising the threshold of a sum rule can only turn its score into
    0: when the rule with the higher threshold does not return 0 it returns
    what the rule with the lower threshold returns.  So a four of a kind
    scores the same as three of a kind and as chance. *)
Theorem sum_distro_threshold_monotone
    (k k' : Z) (description description' : string) (h : list Z) :
  k <= k' ->
  evalRoll (SumDistro k' description') h = Ok 0
  \/ evalRoll (SumDistro k' description') h = evalRoll (SumDistro k description) h.
Proof.
  intros K. unfold evalRoll.
  destruct (some (fun c => c >=? k') (freq h)) eqn:E; [right | now left].
  now rewrite (some_threshold_mono k k' _ K E).
Qed.

Lemma sum_distro_threshold_monotone_witness :
  3 <= 4
  /\ (evalRoll fourOfKind [4; 2; 4; 4; 4] = Ok 0
      \/ evalRoll fourOfKind [4; 2; 4; 4; 4] = evalRoll threeOfKind [4; 2; 4; 4; 4]).
Proof.
  assert (K : 3 <= 4) by discriminate.
  split; [exact K |].
  exact (sum_distro_threshold_monotone 3 4 "Sum of three of a kind"
           "Sum of four of a kind" [4; 2; 4; 4; 4] K).
Defined.

(** X11.  A sum rule that asks for more equal dice than the array holds
    returns 0 on it. *)
Theorem sum_distro_threshold_too_high
    (k : Z) (description : string) (h : list Z) :
  Z.of_nat (length h) < k -> evalRoll (SumDistro k description) h = Ok 0.
Proof.
  intros K. unfold evalRoll.
  destruct (some (fun c => c >=? k) (freq h)) eqn:E; [| reflexivity].
  apply some_freq in E. destruct E as [v [_ G]]. apply Z.geb_le in G.
  pose proof (count_bounds h v). lia.
Qed.

Lemma sum_distro_threshold_too_high_witness :
  Z.of_nat (length [6; 6; 6; 6; 6]) < 6
  /\ evalRoll (SumDistro 6 "Sum of six of a kind") [6; 6; 6; 6; 6] = Ok 0.
Proof.
  assert (K : Z.of_nat (length [6; 6; 6; 6; 6]) < 6) by reflexivity.
  split; [exact K |].
  exact (sum_distro_threshold_too_high 6 "Sum of six of a kind" [6; 6; 6; 6; 6] K).
Defined.



Lemma single_value_le_total (v : Z) (h : list Z) :
  forallb is_face h = true -> v * count h v <= total h.
Proof.
  induction h as [| d ds IH]; intros F.
  - unfold count, total. simpl. lia.
  - simpl in F. apply andb_true_iff in F. destruct F as [Fd F].
    specialize (IH F). apply is_face_iff in Fd. rewrite count_cons.
    unfold total in *. simpl fold_right.
    destruct (Z.eqb_spec d v); [subst d |]; lia.
Qed.

(** X13.  On an array of faces the rule for face [v] returns a multiple of
    [v] that is at most [v] times the number of dice and at most the score of
    chance, the total. *)
Theorem total_one_number_bounds (v : Z) (description : string) (h : list Z) :
  forallb is_face h = true -> 1 <= v <= 6 ->
  exists c,
    evalRoll (TotalOneNumber v description) h = Ok (v * c)
    /\ 0 <= c <= Z.of_nat (length h)
    /\ 0 <= v * c <= v * Z.of_nat (length h)
    /\ v * c <= total h.
Proof.
  intros F V. exists (count h v). pose proof (count_bounds h v) as B.
  split; [reflexivity |]. split; [exact B |]. split; [nia |].
  now apply single_value_le_total.
Qed.

Lemma total_one_number_bounds_witness :
  forallb is_face [2; 2; 3; 2; 5] = true /\ 1 <= 2 <= 6
  /\ exists c,
       evalRoll (TotalOneNumber 2 "Sum of 2's") [2; 2; 3; 2; 5] = Ok (2 * c)
       /\ 0 <= c <= Z.of_nat (length [2; 2; 3; 2; 5])
       /\ 0 <= 2 * c <= 2 * Z.of_nat (length [2; 2; 3; 2; 5])
       /\ 2 * c <= total [2; 2; 3; 2; 5].
Proof.
  assert (V : 1 <= 2 <= 6) by (split; discriminate).
  split; [reflexivity | split; [exact V |]].
  exact (total_one_number_bounds 2 "Sum of 2's" [2; 2; 3; 2; 5] eq_refl V).
Defined.

(** ** How the rules relate on a well-formed hand *)

Lemma scores_iff (r : Rule) (h : list Z) (n : Z) :
  scores r h n = true <-> evalRoll r h = Ok n.
Proof.
  unfold scores. destruct (evalRoll r h) as [m |].
  - rewrite Z.eqb_eq. split; congruence.
  - split; discriminate.
Qed.

Lemma is_face_faces (d : Z) : is_face d = true -> In d faces.
Proof.
  intros F. apply is_face_iff in F. unfold faces. simpl. lia.
Qed.

(** [hands n] misses no array of [n] faces. *)
Lemma hands_complete (n : nat) (h : list Z) :
  length h = n -> forallb is_face h = true -> In h (hands n).
Proof.
  revert n. induction h as [| d ds IH]; intros n L F.
  - subst n. now left.
  - destruct n as [| n']; [discriminate |]. simpl in L, F.
    apply andb_true_iff in F. destruct F as [Fd F].
    change (hands (S n')) with (flat_map (fun d => map (cons d) (hands n')) faces).
    apply in_flat_map. exists d.
    split; [now apply is_face_faces |].
    apply in_map, IH; [congruence | assumption].
Qed.

(** What holds of each of the 7776 hands holds of every well-formed hand. *)
Lemma all_hands (p : list Z -> bool) :
  forallb p (hands 5) = true -> forall h, well_formed h -> p h = true.
Proof.
  intros A h [L F]. rewrite forallb_forall in A.
  apply A, hands_complete; assumption.
Qed.

Lemma full_house_sheet :
  forallb (fun h =>
    implb (scores fullHouse h 25)
      (scores threeOfKind h (total h) && scores fourOfKind h 0
       && scores yahtzee h 0 && scores smallStraight h 0
       && scores largeStraight h 0)) (hands 5) = true.
Proof.
  vm_compute. reflexivity.
Qed.

(** X14.  A well-formed hand that scores as a full house scores its total as
    three of a kind, and scores 0 as four of a kind, as Yahtzee and as both
    straights. *)
Theorem full_house_excludes (h : list Z) :
  well_formed h -> evalRoll fullHouse h = Ok 25 ->
  evalRoll threeOfKind h = Ok (total h)
  /\ evalRoll fourOfKind h = Ok 0
  /\ evalRoll yahtzee h = Ok 0
  /\ evalRoll smallStraight h = Ok 0
  /\ evalRoll largeStraight h = Ok 0.
Proof.
  intros W H. apply scores_iff in H.
  pose proof (all_hands _ full_house_sheet h W) as C. cbv beta in C.
  rewrite H in C. simpl implb in C.
  repeat (apply andb_true_iff in C; destruct C as [C ?]).
  repeat split; now apply scores_iff.
Qed.

Lemma full_house_excludes_witness :
  well_formed [3; 3; 2; 3; 2] /\ evalRoll fullHouse [3; 3; 2; 3; 2] = Ok 25
  /\ evalRoll threeOfKind [3; 3; 2; 3; 2] = Ok 13.
Proof.
  assert (W : well_formed [3; 3; 2; 3; 2]) by (split; reflexivity).
  split; [exact W | split; [reflexivity |]].
  exact (proj1 (full_house_excludes [3; 3; 2; 3; 2] W eq_refl)).
Defined.

Lemma small_straight_sheet :
  forallb (fun h =>
    implb (scores smallStraight h 30)
      (scores threeOfKind h 0 && scores fourOfKind h 0
       && scores fullHouse h 0 && scores yahtzee h 0)) (hands 5) = true.
Proof.
  vm_compute. reflexivity.
Qed.

(** X15.  A well-formed hand that scores as a small straight scores 0 as
    three of a kind, as four of a kind, as full house and as Yahtzee. *)
Theorem small_straight_excludes (h : list Z) :
  well_formed h -> evalRoll smallStraight h = Ok 30 ->
  evalRoll threeOfKind h = Ok 0
  /\ evalRoll fourOfKind h = Ok 0
  /\ evalRoll fullHouse h = Ok 0
  /\ evalRoll yahtzee h = Ok 0.
Proof.
  intros W H. apply scores_iff in H.
  pose proof (all_hands _ small_straight_sheet h W) as C. cbv beta in C.
  rewrite H in C. simpl implb in C.
  repeat (apply andb_true_iff in C; destruct C as [C ?]).
  repeat split; now apply scores_iff.
Qed.

Lemma small_straight_excludes_witness :
  well_formed [4; 3; 6; 4; 5] /\ evalRoll smallStraight [4; 3; 6; 4; 5] = Ok 30
  /\ evalRoll threeOfKind [4; 3; 6; 4; 5] = Ok 0.
Proof.
  assert (W : well_formed [4; 3; 6; 4; 5]) by (split; reflexivity).
  split; [exact W | split; [reflexivity |]].
  exact (proj1 (small_straight_excludes [4; 3; 6; 4; 5] W eq_refl)).
Defined.

(** A hand whose five dice show five given distinct values is a permutation
    of them. *)
Lemma five_distinct_Permutation (h l : list Z) :
  length h = 5%nat -> length l = 5%nat -> NoDup l ->
  Permutation (distinct_values h) l -> Permutation l h.
Proof.
  intros Lh Ll ND P. apply NoDup_Permutation_bis; [assumption | |].
  - rewrite Lh, Ll. apply Nat.le_refl.
  - intros v Hv. apply distinct_values_In.
    now apply (Permutation_in v (Permutation_sym P)).
Qed.

Lemma NoDup_1_to_5 : NoDup [1; 2; 3; 4; 5].
Proof.
  repeat constructor; simpl; lia.
Qed.

Lemma NoDup_2_to_6 : NoDup [2; 3; 4; 5; 6].
Proof.
  repeat constructor; simpl; lia.
Qed.

Lemma large_straight_inv (h : list Z) :
  evalRoll largeStraight h = Ok 40 -> five_distinct_not_1_and_6 h.
Proof.
  intros H. apply large_straight_check. cbv zeta.
  unfold largeStraight, evalRoll in H. cbv zeta in H.
  destruct (_ && _); [reflexivity | discriminate].
Qed.

(** X16.  A well-formed hand that scores as a large straight has five
    different dice, also scores as a small straight, and its total, the score
    of chance, is 15 or 20. *)
Theorem large_straight_is_small_straight (h : list Z) :
  well_formed h -> evalRoll largeStraight h = Ok 40 ->
  NoDup h
  /\ evalRoll smallStraight h = Ok 30
  /\ (evalRoll chance h = Ok 15 \/ evalRoll chance h = Ok 20).
Proof.
  intros W H. pose proof W as [L _].
  assert (NE : h <> []) by (intros ->; discriminate).
  pose proof (five_distinct_faces h (well_formed_faces h W) (large_straight_inv h H))
    as [P | P].
  - pose proof (five_distinct_Permutation h [1; 2; 3; 4; 5] L eq_refl NoDup_1_to_5 P) as Q.
    split; [apply (Permutation_NoDup Q NoDup_1_to_5) |]. split.
    + apply small_straight_check. left. cbv zeta.
      repeat split; try left;
        apply (Permutation_in _ (Permutation_sym P)); simpl; tauto.
    + left. unfold chance. rewrite sum_distro_low by (assumption || lia).
      now rewrite <- (total_Permutation _ _ Q).
  - pose proof (five_distinct_Permutation h [2; 3; 4; 5; 6] L eq_refl NoDup_2_to_6 P) as Q.
    split; [apply (Permutation_NoDup Q NoDup_2_to_6) |]. split.
    + apply small_straight_check. right. cbv zeta.
      repeat split; try left;
        apply (Permutation_in _ (Permutation_sym P)); simpl; tauto.
    + right. unfold chance. rewrite sum_distro_low by (assumption || lia).
      now rewrite <- (total_Permutation _ _ Q).
Qed.

Lemma large_straight_is_small_straight_witness :
  well_formed [5; 3; 6; 2; 4] /\ evalRoll largeStraight [5; 3; 6; 2; 4] = Ok 40
  /\ evalRoll smallStraight [5; 3; 6; 2; 4] = Ok 30.
Proof.
  assert (W : well_formed [5; 3; 6; 2; 4]) by (split; reflexivity).
  split; [exact W | split; [reflexivity |]].
  exact (proj1 (proj2 (large_straight_is_small_straight [5; 3; 6; 2; 4] W eq_refl))).
Defined.

Lemma yahtzee_inv (h : list Z) :
  well_formed h -> evalRoll yahtzee h = Ok 50 ->
  exists v, 1 <= v <= 6 /\ h = [v; v; v; v; v].
Proof.
  intros W H. pose proof W as [L _].
  assert (F : first_is (freq h) 5 = true).
  { unfold yahtzee, evalRoll in H. destruct (first_is (freq h) 5); [reflexivity | discriminate]. }
  apply (yahtzee_check h L) in F.
  destruct h as [| d ds]; [discriminate |].
  exists d. split; [apply (well_formed_faces _ W); now left |].
  apply five_equal; [assumption |]. now apply one_distinct_value.
Qed.

(** X17.  A well-formed hand that scores as a Yahtzee is five dice of one
    face [v]; it scores [5 * v] as chance, as three of a kind, as four of a
    kind and under the rule of its face, and 0 as full house and as both
    straights. *)
Theorem yahtzee_other_scores (h : list Z) :
  well_formed h -> evalRoll yahtzee h = Ok 50 ->
  exists v,
    1 <= v <= 6 /\ h = [v; v; v; v; v]
    /\ evalRoll chance h = Ok (5 * v)
    /\ evalRoll threeOfKind h = Ok (5 * v)
    /\ evalRoll fourOfKind h = Ok (5 * v)
    /\ (forall description, evalRoll (TotalOneNumber v description) h = Ok (5 * v))
    /\ evalRoll fullHouse h = Ok 0
    /\ evalRoll smallStraight h = Ok 0
    /\ evalRoll largeStraight h = Ok 0.
Proof.
  intros W H. destruct (yahtzee_inv h W H) as [v [V ->]].
  exists v. split; [exact V |]. split; [reflexivity |].
  assert (D : v = 1 \/ v = 2 \/ v = 3 \/ v = 4 \/ v = 5 \/ v = 6) by lia.
  destruct D as [-> | [-> | [-> | [-> | [-> | ->]]]]];
    repeat split; reflexivity.
Qed.

Lemma yahtzee_other_scores_witness :
  well_formed [4; 4; 4; 4; 4] /\ evalRoll yahtzee [4; 4; 4; 4; 4] = Ok 50
  /\ exists v, 1 <= v <= 6 /\ [4; 4; 4; 4; 4] = [v; v; v; v; v].
Proof.
  assert (W : well_formed [4; 4; 4; 4; 4]) by (split; reflexivity).
  split; [exact W | split; [reflexivity |]].
  destruct (yahtzee_other_scores [4; 4; 4; 4; 4] W eq_refl) as [v [V [E _]]].
  exists v. split; assumption.
Defined.

(** ** The fixed-award rules on arrays of any length and values *)

(** X18.  Whatever the award and whatever the array, the full house rule
    looks only for a value that shows exactly twice and one that shows
    exactly three times, the small straight rule only for 2, 3, 4 with 1 or 5
    or for 3, 4, 5 with 2 or 6 among the values, and the large straight rule
    only for five distinct values that do not include both 1 and 6.  The
    large straight rule does not check that the values follow each other: it
    relies on the dice being faces, and 2-3-4-5-9 scores 40. *)
Theorem fixed_award_rules_any_array (score : Z) (description : string) (h : list Z) :
  (pair_and_triple h -> evalRoll (FullHouse score description) h = Ok score)
  /\ (~ pair_and_triple h -> evalRoll (FullHouse score description) h = Ok 0)
  /\ (three_and_a_neighbour h ->
      evalRoll (SmallStraight score description) h = Ok score)
  /\ (~ three_and_a_neighbour h ->
      evalRoll (SmallStraight score description) h = Ok 0)
  /\ (five_distinct_not_1_and_6 h ->
      evalRoll (LargeStraight score description) h = Ok score)
  /\ (~ five_distinct_not_1_and_6 h ->
      evalRoll (LargeStraight score description) h = Ok 0)
  /\ evalRoll largeStraight [2; 3; 4; 5; 9] = Ok 40.
Proof.
  split; [| split; [| split; [| split; [| split; [| split; [| reflexivity]]]]]].
  - intros P. apply full_house_check in P. unfold evalRoll. cbv zeta. now rewrite P.
  - intros P. unfold evalRoll. cbv zeta.
    destruct (_ && _) eqn:E; [exfalso; apply P, full_house_check, E | reflexivity].
  - apply small_straight_check.
  - apply small_straight_check.
  - intros P. apply large_straight_check in P. cbv zeta in P.
    unfold evalRoll. cbv zeta. now rewrite P.
  - intros P. unfold evalRoll. cbv zeta.
    destruct (_ && _) eqn:E; [exfalso; apply P, large_straight_check, E | reflexivity].
Qed.

(** ** The score-sheet row *)

(** X19.  A row can be clicked exactly when its score is [undefined]; then
    it is styled active and shows the description.  Any number as score, 0
    included, makes the row disabled: the handler is [null] and the cell
    shows that number.  The score cell never shows [undefined], and the first
    cell always shows the name. *)
Theorem rule_row_active_iff_unscored (Handler : Type) (p : RuleRow.props Handler) :
  let row := RuleRow.render p in
  (RuleRow.onClick row = Some (RuleRow.doScore p) <-> RuleRow.score p = None)
  /\ (RuleRow.onClick row = None <-> exists n, RuleRow.score p = Some n)
  /\ (RuleRow.className row = "RuleRow RuleRow-active" <-> RuleRow.score p = None)
  /\ (RuleRow.className row = "RuleRow RuleRow-disabled"
      <-> exists n, RuleRow.score p = Some n)
  /\ (forall n, RuleRow.score p = Some n ->
        map RuleRow.td_child (RuleRow.cells row)
        = [RuleRow.Text (RuleRow.name p); RuleRow.Num n])
  /\ (RuleRow.score p = None ->
        map RuleRow.td_child (RuleRow.cells row)
        = [RuleRow.Text (RuleRow.name p); RuleRow.Text (RuleRow.description p)])
  /\ ~ In RuleRow.Nothing (map RuleRow.td_child (RuleRow.cells row)).
Proof.
  destruct p as [[n |] nm handler descr]; cbv zeta; unfold RuleRow.render; simpl;
    repeat split; intros; try discriminate; try reflexivity; try congruence;
    try (eexists; reflexivity);
    repeat match goal with
           | H : exists _, _ |- _ => destruct H
           | H : _ \/ _ |- _ => destruct H
           | H : False |- _ => destruct H
           end; try discriminate; try congruence;
    intros [E | [E | []]]; discriminate E.
Qed.

(** ** The die *)

Lemma index_numWords (i : Z) :
  Die.index Die.numWords i = None
  \/ exists w, In w Die.numWords /\ Die.index Die.numWords i = Some w.
Proof.
  unfold Die.index. destruct (i <? 0); [now left |].
  destruct (nth_error Die.numWords (Z.to_nat i)) as [w |] eqn:E; [right | now left].
  exists w. split; [now apply (nth_error_In _ _ E) | reflexivity].
Qed.



(** X21.  [render] appends [Die-locked] to the class string with no space
    before it.  So, with the default words, a locked die carries three
    classes whatever its value; none of them is the class [Die-locked], and
    none is the face class it carries when it is not locked. *)
Theorem die_locked_class (p : Die.props) :
  Die.words p = Die.numWords -> Die.locked p = true ->
  length (class_list (Die.className (Die.render p))) = 3%nat
  /\ ~ In "Die-locked" (class_list (Die.className (Die.render p)))
  /\ (forall w, In w ("undefined" :: Die.numWords) ->
        ~ In ("fa-dice-" ++ w)%string (class_list (Die.className (Die.render p)))).
Proof.
  destruct p as [ws l v dis i]. simpl. intros -> ->. unfold Die.classes. simpl.
  destruct (index_numWords (v - 1)) as [-> | [w [Hw ->]]].
  - split; [reflexivity |]. split.
    + simpl. intros [E | [E | [E | []]]]; discriminate E.
    + intros w Hw. simpl in Hw.
      repeat (destruct Hw as [<- | Hw]); try destruct Hw;
        simpl; intros [E | [E | [E | []]]]; discriminate E.
  - simpl in Hw. repeat (destruct Hw as [<- | Hw]); try destruct Hw;
      (split; [reflexivity |]; split;
       [ simpl; intros [E | [E | [E | []]]]; discriminate E
       | intros w' Hw'; simpl in Hw';
         repeat (destruct Hw' as [<- | Hw']); try destruct Hw';
         simpl; intros [E | [E | [E | []]]]; discriminate E ]).
Qed.

Lemma die_locked_class_witness :
  Die.words (Die.Build_props Die.numWords true 1 false 0) = Die.numWords
  /\ Die.locked (Die.Build_props Die.numWords true 1 false 0) = true
  /\ class_list (Die.className (Die.render (Die.Build_props Die.numWords true 1 false 0)))
     = ["Die"; "fas"; "fa-dice-oneDie-locked"]
  /\ ~ In "Die-locked"
       (class_list (Die.className (Die.render (Die.Build_props Die.numWords true 1 false 0)))).
Proof.
  split; [reflexivity | split; [reflexivity | split; [reflexivity |]]].
  exact (proj1 (proj2 (die_locked_class
                         (Die.Build_props Die.numWords true 1 false 0) eq_refl eq_refl))).
Defined.
